(** * SlizzAi v3.6: scheduler, codec, budget gate and production loop

    A shallow embedding of [SlizzAi-3.6.py] and the properties of its
    control core.

    Numbers.  Python [int]s are [Z].  The program's floating-point values
    ([u], [v], the payload, [used], [water_limit]) are embedded as exact
    rationals [Q]: every operation is the exact operation on the values,
    and binary rounding of the results is not modelled.  [PHI] is the
    rational that the double [(1 + 5**0.5) / 2.0] denotes.

    Effects.  The generator and the resource manager are objects with
    mutable fields; their methods are state-passing functions.  A method
    that can raise returns a [result].  The production loop threads a
    [world] (scheduler, manager, event trace) and consults an oracle for
    what the outside supplies per tile (payload, service answer, sensors). *)

From Stdlib Require Import ZArith QArith Qabs Qpower List String Ascii Bool.
From Stdlib Require Import Lia Lqa.
From Stdlib.Strings Require Import Byte.
From Stdlib Require Import DecimalString Decimal DecimalNat.
Import ListNotations.

Local Open Scope Z_scope.

(** ** Exceptions and results *)

Inductive exn : Type :=
| ZeroDivisionError
| ValueError (msg : string)
| KeyError (key : string)
| AssertionError (msg : string)
| RequestException
| RuntimeError (used limit : Q).

Inductive result (A : Type) : Type :=
| Ok (a : A)
| Raise (e : exn).
Arguments Ok {A} a.
Arguments Raise {A} e.

Definition bind {A B : Type} (r : result A) (k : A -> result B) : result B :=
  match r with
  | Ok a => k a
  | Raise e => Raise e
  end.

Notation "x <- r ;; k" := (bind r (fun x => k))
  (at level 61, r at next level, right associativity).

(** ** Module: FrameScheduler *)

Module FrameScheduler.

Record t : Type := mk { prev : Z; cur : Z; modulus : Z }.

(** [__init__(modulus)] *)
Definition init (m : Z) : t := mk 0 1 m.

(** [int / int] and [int % int] raise on a zero divisor; otherwise [%]
    is the floored remainder, which is [Z.modulo]. *)
Definition py_mod (a b : Z) : result Z :=
  if b =? 0 then Raise ZeroDivisionError else Ok (a mod b).

Definition py_truediv (a b : Z) : result Q :=
  if b =? 0 then Raise ZeroDivisionError
  else Ok (inject_Z a / inject_Z b)%Q.

(** [next_tile_uv]: the coordinate pair and the generator afterwards. *)
Definition next_tile_uv (s : t) : result ((Q * Q) * t) :=
  let fib_n := cur s in
  c <- py_mod (prev s + cur s) (modulus s) ;;
  let s' := mk (cur s) c (modulus s) in
  a <- py_mod fib_n (modulus s') ;;
  u <- py_truediv a (modulus s') ;;
  b <- py_mod (cur s') (modulus s') ;;
  v <- py_truediv b (modulus s') ;;
  Ok ((u, v), s').

Definition reset (s : t) : t := mk 0 1 (modulus s).

(** [n] successive calls: the coordinates in call order and the
    generator afterwards. *)
Fixpoint calls (n : nat) (s : t) : result (list (Q * Q) * t) :=
  match n with
  | O => Ok ([], s)
  | S k =>
      r <- next_tile_uv s ;;
      rest <- calls k (snd r) ;;
      Ok (fst r :: fst rest, snd rest)
  end.

End FrameScheduler.

(** ** Module: GoldenRatioCompressor *)

Module GoldenRatioCompressor.

(** [PHI = (1 + 5**0.5) / 2.0], the double 1.618033988749895. *)
Definition PHI : Q := 910872158600853 # 562949953421312.

(** [np.round]: to the nearest integer, a tie to the even one. *)
Definition np_round (q : Q) : Z :=
  let n := Qnum q in
  let d := Z.pos (Qden q) in
  let f := n / d in
  match 2 * (n mod d) ?= d with
  | Lt => f
  | Gt => f + 1
  | Eq => if Z.even f then f else f + 1
  end.

(** [.astype(np.int16)]: the integer is kept modulo [2^16] in the signed
    range, there is no range check. *)
Definition astype_int16 (z : Z) : Z := (z + 32768) mod 65536 - 32768.

Definition byte_of_Z (z : Z) : byte :=
  match Byte.of_N (Z.to_N (z mod 256)) with
  | Some b => b
  | None => x00
  end.

Definition Z_of_byte (b : byte) : Z := Z.of_N (Byte.to_N b).

(** One int16 cell of [tobytes()]: two bytes, low byte first. *)
Definition int16_tobytes (c : Z) : list byte :=
  [byte_of_Z c; byte_of_Z (c / 256)].

Definition int16_frombytes (lo hi : byte) : Z :=
  let w := Z_of_byte lo + 256 * Z_of_byte hi in
  if w <? 32768 then w else w - 65536.

Definition tobytes (cells : list Z) : list byte :=
  flat_map int16_tobytes cells.

(** [compress]: [np.round(data * PHI * 1000.0).astype(np.int16).tobytes()] *)
Definition scaled (data : list Q) : list Z :=
  map (fun x => astype_int16 (np_round (x * PHI * 1000)%Q)) data.

Definition compress (data : list Q) : list byte := tobytes (scaled data).

(** [np.frombuffer(blob, dtype=np.int16, count=length)] reads the first
    [length] cells; it raises when the buffer holds fewer than
    [2 * length] bytes and ignores what follows them. *)
Fixpoint read_int16 (count : nat) (blob : list byte) : list Z :=
  match count, blob with
  | S k, lo :: hi :: rest => int16_frombytes lo hi :: read_int16 k rest
  | _, _ => []
  end.

Definition frombuffer (blob : list byte) (count : nat) : result (list Z) :=
  if (List.length blob <? 2 * count)%nat
  then Raise (ValueError "buffer is smaller than requested size")
  else Ok (read_int16 count blob).

(** [decompress]: [arr.astype(np.float32) / (PHI * 1000.0)] *)
Definition decompress (blob : list byte) (length : nat) : result (list Q) :=
  arr <- frombuffer blob length ;;
  Ok (map (fun c => inject_Z c / (PHI * 1000))%Q arr).

End GoldenRatioCompressor.

(** ** Module: ResourceManager *)

Module ResourceManager.

Definition TEMP_BASE : Q := 30.
Definition L_PER_DEGREE : Q := 5 # 100000.

Record t : Type := mk { water_limit : Q; used : Q }.

(** [__init__(water_limit)] *)
Definition init (limit : Q) : t := mk limit 0.

(** What [psutil] offers on the host: no [sensors_temperatures] at all,
    or a function whose answer is a dict (sensor name to the [current]
    values of its entries, in the dict's order) or something else. *)
Inductive sensor_data : Type :=
| NotADict
| Dict (items : list (string * list Q)).

Inductive psutil : Type :=
| NoSensorsTemperatures
| SensorsTemperatures (answer : sensor_data).

(** [max(a, b)] of two numbers: the first one unless the second is
    greater. *)
Definition py_max (a b : Q) : Q := if Qle_bool b a then a else b.

(** [delta = max(0.0, current - TEMP_BASE); self.used += delta * L_PER_DEGREE] *)
Definition account (current : Q) (m : t) : t :=
  let delta := py_max 0 (current - TEMP_BASE) in
  mk (water_limit m) (used m + delta * L_PER_DEGREE).

(** The [for ... in sensor_data.items()] loop: the first sensor with a
    non-empty entry list is accounted and the loop left; the answer is
    [found]. *)
Fixpoint first_sensor (items : list (string * list Q)) (m : t) : bool * t :=
  match items with
  | [] => (false, m)
  | (_, entries) :: rest =>
      match entries with
      | e0 :: _ => (true, account e0 m)
      | [] => first_sensor rest m
      end
  end.

Definition update (ps : psutil) (m : t) : t :=
  match ps with
  | SensorsTemperatures sensor =>
      let (found, m1) :=
        match sensor with
        | Dict items => first_sensor items m
        | NotADict => (false, m)
        end in
      if found then m1 else account 35 m1
  | NoSensorsTemperatures => account 35 m
  end.

Definition gate (m : t) : result unit :=
  if Qle_bool (water_limit m) (used m)
  then Raise (RuntimeError (used m) (water_limit m))
  else Ok tt.

(** [update()] once per element of [readings], in order. *)
Definition updates (readings : list psutil) (m : t) : t :=
  fold_left (fun acc ps => update ps acc) readings m.

End ResourceManager.

(** ** Main orchestrator *)

Module Pipeline.

Local Open Scope string_scope.

(** The configuration dict: a key is present or not. *)
Record Config : Type := mkConfig {
  output_dir : option string;
  super_sampler_url : option string;
  water_limit : option Q;
  fib_modulus : option Z;
  num_tiles : option Z;
  loop_delay : option Q
}.

(** [cfg.get(key, default)] *)
Definition get {A : Type} (entry : option A) (default : A) : A :=
  match entry with
  | Some a => a
  | None => default
  end.

(** [cfg[key]] *)
Definition item {A : Type} (key : string) (entry : option A) : result A :=
  match entry with
  | Some a => Ok a
  | None => Raise (KeyError key)
  end.

(** What the run does to the outside, in order. *)
Inductive event : Type :=
| Makedirs (path : string)
| ExportTile (u v : Q) (path : string)
| Supersample (url in_path out_path : string)
| SupersampleFailed (url in_path : string)
| Sleep (seconds : Q).

(** What the outside supplies for one tile: the random payload, whether
    the super-sampling request succeeds, and the sensors at the time of
    [manager.update()]. *)
Record tile_env : Type := mkEnv {
  rand_delta : list Q;
  sampler_ok : bool;
  sensors : ResourceManager.psutil
}.

Record world : Type := mkWorld {
  scheduler : FrameScheduler.t;
  manager : ResourceManager.t;
  trace : list event
}.

(** Statements that change the world and may raise; what was done before
    an exception stays done. *)
Definition prog (A : Type) : Type := world -> result A * world.

Definition ret {A : Type} (a : A) : prog A := fun w => (Ok a, w).

Definition lift {A : Type} (r : result A) : prog A := fun w => (r, w).

Definition seq_bind {A B : Type} (c : prog A) (k : A -> prog B) : prog B :=
  fun w =>
    match c w with
    | (Ok a, w') => k a w'
    | (Raise e, w') => (Raise e, w')
    end.

Notation "x <~ c ;; k" := (seq_bind c (fun x => k))
  (at level 61, c at next level, right associativity).
Notation "c ;;; k" := (seq_bind c (fun _ => k))
  (at level 61, right associativity).

Definition emit (ev : event) : prog unit :=
  fun w => (Ok tt, mkWorld (scheduler w) (manager w) (trace w ++ [ev])).

Definition scheduler_next_tile_uv : prog (Q * Q) :=
  fun w =>
    match FrameScheduler.next_tile_uv (scheduler w) with
    | Ok (uv, s') => (Ok uv, mkWorld s' (manager w) (trace w))
    | Raise e => (Raise e, w)
    end.

Definition manager_update (ps : ResourceManager.psutil) : prog unit :=
  fun w =>
    (Ok tt, mkWorld (scheduler w)
                    (ResourceManager.update ps (manager w)) (trace w)).

Definition manager_gate : prog unit :=
  fun w => (ResourceManager.gate (manager w), w).

(** [f"{idx:03d}"] *)
Fixpoint zeros (n : nat) : string :=
  match n with
  | O => ""
  | S k => String "0" (zeros k)
  end.

Definition format_03d (idx : nat) : string :=
  let digits := NilEmpty.string_of_uint (Nat.to_uint idx) in
  zeros (3 - String.length digits) ++ digits.

Fixpoint ends_with_slash (s : string) : bool :=
  match s with
  | "" => false
  | String c "" => Ascii.eqb c "/"
  | String _ rest => ends_with_slash rest
  end.

(** [os.path.join(a, b)] for a relative [b] *)
Definition path_join (a b : string) : string :=
  if String.eqb a "" then b
  else if ends_with_slash a then a ++ b
  else a ++ "/" ++ b.

(** [s.rstrip('/')] *)
Fixpoint rstrip_slash (s : string) : string :=
  match s with
  | "" => ""
  | String c rest =>
      match rstrip_slash rest with
      | "" => if Ascii.eqb c "/" then "" else String c ""
      | rest' => String c rest'
      end
  end.

(** [np.allclose(a, b, atol=atol)] with the default [rtol = 1e-5] *)
Definition allclose (a b : list Q) (atol : Q) : bool :=
  forallb (fun p => Qle_bool (Qabs (fst p - snd p))
                             (atol + (1 # 100000) * Qabs (snd p)))
          (combine a b).

Definition tile_path (out_dir : string) (idx : nat) : string :=
  path_join out_dir ("tile_" ++ format_03d idx ++ ".png").

Definition final_path (out_dir : string) (idx : nat) : string :=
  path_join out_dir ("final_" ++ format_03d idx ++ ".png").

(** [SuperSamplerClient.supersample] *)
Definition supersample (base_url : string) (ok : bool)
    (in_path out_path : string) : prog unit :=
  let url := base_url ++ "/supersample" in
  if ok then emit (Supersample url in_path out_path)
  else emit (SupersampleFailed url in_path) ;;; lift (Raise RequestException).

(** The body of [for idx in range(num_tiles)] *)
Definition tile (cfg : Config) (out_dir base_url : string)
    (env : nat -> tile_env) (idx : nat) : prog unit :=
  uv <~ scheduler_next_tile_uv ;;
  let delta := rand_delta (env idx) in
  let blob := GoldenRatioCompressor.compress delta in
  recon <~ lift (GoldenRatioCompressor.decompress blob (List.length delta)) ;;
  (if allclose delta recon (1 # 1000) then ret tt
   else lift (Raise (AssertionError "Compression integrity failed"))) ;;;
  emit (ExportTile (fst uv) (snd uv) (tile_path out_dir idx)) ;;;
  supersample base_url (sampler_ok (env idx))
              (tile_path out_dir idx) (final_path out_dir idx) ;;;
  manager_update (sensors (env idx)) ;;;
  manager_gate ;;;
  emit (Sleep (get (loop_delay cfg) (1 # 10))).

Fixpoint for_each (idxs : list nat) (body : nat -> prog unit) : prog unit :=
  match idxs with
  | [] => ret tt
  | idx :: rest => body idx ;;; for_each rest body
  end.

(** [range(n)] *)
Definition range (n : Z) : list nat := seq 0 (Z.to_nat n).

(** The objects [run_pipeline] builds before the loop, after
    [scheduler.reset()]. *)
Definition start (cfg : Config) (out_dir : string) (limit : Q) : world :=
  mkWorld
    (FrameScheduler.reset
       (FrameScheduler.init (get (fib_modulus cfg) 100000%Z)))
    (ResourceManager.init limit)
    [Makedirs out_dir].

Definition run_pipeline (cfg : Config) (env : nat -> tile_env)
    : result unit * list event :=
  match item "output_dir" (output_dir cfg) with
  | Raise e => (Raise e, [])
  | Ok out_dir =>
      match item "super_sampler_url" (super_sampler_url cfg) with
      | Raise e => (Raise e, [Makedirs out_dir])
      | Ok base_url =>
          match item "water_limit" (water_limit cfg) with
          | Raise e => (Raise e, [Makedirs out_dir])
          | Ok limit =>
              let (r, w) :=
                for_each (range (get (num_tiles cfg) 24%Z))
                         (tile cfg out_dir (rstrip_slash base_url) env)
                         (start cfg out_dir limit) in
              (r, trace w)
          end
      end
  end.

(** The run states of the orchestrator that a finished call is in. *)
Inductive run_state : Type :=
| Completed
| Aborted (e : exn).

Definition final_state (r : result unit) : run_state :=
  match r with
  | Ok _ => Completed
  | Raise e => Aborted e
  end.

(** The files a trace has written, in order. *)
Definition files_written (tr : list event) : list string :=
  flat_map (fun ev =>
              match ev with
              | ExportTile _ _ path => [path]
              | Supersample _ _ out_path => [out_path]
              | _ => []
              end) tr.

(** What one tile leaves in the trace up to its gate check. *)
Definition tile_events (out_dir url : string) (idx : nat) (uv : Q * Q)
    : list event :=
  [ExportTile (fst uv) (snd uv) (tile_path out_dir idx);
   Supersample url (tile_path out_dir idx) (final_path out_dir idx)].

(** The trace of consecutive tiles, from index [first] on, that all
    passed the gate: one coordinate pair per tile. *)
Fixpoint passed_trace (out_dir url : string) (delay : Q) (first : nat)
    (coords : list (Q * Q)) : list event :=
  match coords with
  | [] => []
  | uv :: rest =>
      tile_events out_dir url first uv ++
      Sleep delay :: passed_trace out_dir url delay (S first) rest
  end.

(** The sensors at the [update()] of tile [idx]. *)
Definition sensors_at (env : nat -> tile_env) (idx : nat)
    : ResourceManager.psutil :=
  sensors (env idx).

(** The pair of files of one tile. *)
Definition tile_files (out_dir : string) (idx : nat) : list string :=
  [tile_path out_dir idx; final_path out_dir idx].

End Pipeline.

(** ** Binary floating point

    Rounding of an exact value to a binary format with [prec] bits of
    precision whose smallest positive value is [2^emin]: to the nearest
    value of the format, a tie to the one with an even significand.
    Values beyond the largest finite value of a format are not capped;
    where the code could meet them it is said so. *)

Module Binary.

(** The exponent [e] with [2^e <= q < 2^(e+1)], for a positive [q]. *)
Definition ilog2 (q : Q) : Z :=
  let e0 := Z.log2 (Qnum q) - Z.log2 (Z.pos (Qden q)) in
  if Qle_bool (2 ^ e0) q then e0 else e0 - 1.

Definition round_to (prec emin : Z) (q : Q) : Q :=
  if Qeq_bool q 0 then 0
  else
    let e := ilog2 (Qabs q) in
    let ex := Z.max (e - prec + 1) emin in
    (inject_Z (GoldenRatioCompressor.np_round (q / 2 ^ ex)) * 2 ^ ex)%Q.

(** [np.float32] *)
Definition binary32 : Q -> Q := round_to 24 (-149).

(** Python [float], [np.float64] *)
Definition binary64 : Q -> Q := round_to 53 (-1074).

End Binary.

(** ** The floating-point operations as they are executed

    The modules above carry the values of [u], [v] and of the payload as
    exact rationals.  [Rounded] has the same methods with every
    floating-point operation rounded as Python and numpy round it: [int /
    int] gives the double nearest to the quotient, and the codec works on
    [float32] arrays, where a Python [float] operand is first converted to
    [float32]. *)

Module Rounded.

Module FrameScheduler.

(** [int / int]: the quotients of [next_tile_uv] are below one in
    magnitude, so the division never overflows. *)
Definition py_truediv (a b : Z) : result Q :=
  if b =? 0 then Raise ZeroDivisionError
  else Ok (Binary.binary64 (inject_Z a / inject_Z b)).

Definition next_tile_uv (s : FrameScheduler.t)
    : result ((Q * Q) * FrameScheduler.t) :=
  let fib_n := FrameScheduler.cur s in
  c <- FrameScheduler.py_mod (FrameScheduler.prev s + FrameScheduler.cur s)
                             (FrameScheduler.modulus s) ;;
  let s' := FrameScheduler.mk (FrameScheduler.cur s) c
                              (FrameScheduler.modulus s) in
  a <- FrameScheduler.py_mod fib_n (FrameScheduler.modulus s') ;;
  u <- py_truediv a (FrameScheduler.modulus s') ;;
  b <- FrameScheduler.py_mod (FrameScheduler.cur s')
                             (FrameScheduler.modulus s') ;;
  v <- py_truediv b (FrameScheduler.modulus s') ;;
  Ok ((u, v), s').

(** [n] successive calls: the coordinates in call order and the
    generator afterwards. *)
Fixpoint calls (n : nat) (s : FrameScheduler.t)
    : result (list (Q * Q) * FrameScheduler.t) :=
  match n with
  | O => Ok ([], s)
  | S k =>
      r <- next_tile_uv s ;;
      rest <- calls k (snd r) ;;
      Ok (fst r :: fst rest, snd rest)
  end.

End FrameScheduler.

Module GoldenRatioCompressor.

(** [PHI] as the [float32] operand of [data * self.PHI]. *)
Definition phi32 : Q := Binary.binary32 GoldenRatioCompressor.PHI.

(** [self.PHI * 1000.0], a product of doubles, as the [float32] divisor
    of [decompress]. *)
Definition scale32 : Q :=
  Binary.binary32 (Binary.binary64 (GoldenRatioCompressor.PHI * 1000)).

(** [np.round(data * self.PHI * 1000.0)] of one [float32] element: two
    [float32] products, then the nearest integer. *)
Definition rounded_scaled (x : Q) : Z :=
  GoldenRatioCompressor.np_round
    (Binary.binary32 (Binary.binary32 (x * phi32) * 1000)).

(** [.astype(np.int16)] of an integral [float32]: the conversion goes
    through a 32-bit integer, of which the low 16 bits are kept; a value
    outside the 32-bit range (an infinity too) converts to the integer
    whose low 16 bits are zero. *)
Definition astype_int16 (z : Z) : Z :=
  if (- 2 ^ 31 <=? z) && (z <? 2 ^ 31)
  then GoldenRatioCompressor.astype_int16 z
  else 0.

Definition scaled (data : list Q) : list Z :=
  map (fun x => astype_int16 (rounded_scaled x)) data.

Definition compress (data : list Q) : list byte :=
  GoldenRatioCompressor.tobytes (scaled data).

Definition decompress (blob : list byte) (length : nat) : result (list Q) :=
  arr <- GoldenRatioCompressor.frombuffer blob length ;;
  Ok (map (fun c => Binary.binary32 (inject_Z c / scale32)) arr).

End GoldenRatioCompressor.

End Rounded.

(** ** Vocabulary of the properties *)

Definition in_unit_interval (x : Q) : Prop := (0 <= x /\ x < 1)%Q.

Definition in_unit_square (uv : Q * Q) : Prop :=
  in_unit_interval (fst uv) /\ in_unit_interval (snd uv).

Definition in_closed_unit_interval (x : Q) : Prop := (0 <= x /\ x <= 1)%Q.

Definition in_closed_unit_square (uv : Q * Q) : Prop :=
  in_closed_unit_interval (fst uv) /\ in_closed_unit_interval (snd uv).

(** The coordinate component [next_tile_uv] computes from a term. *)
Definition coord (a m : Z) : Q := (inject_Z (a mod m) / inject_Z m)%Q.

(** The signed 16-bit range. *)
Definition int16 (z : Z) : Prop := -32768 <= z <= 32767.

(** The quantization step: [PHI * 1000.0]. *)
Definition step : Q := (GoldenRatioCompressor.PHI * 1000)%Q.

(** An element inside the codec's domain: scaled, it stays within the
    signed 16-bit range. *)
Definition representable (x : Q) : Prop :=
  (-32768 <= x * GoldenRatioCompressor.PHI * 1000 /\
   x * GoldenRatioCompressor.PHI * 1000 <= 32767)%Q.

(** A run of three tiles with a budget of 0.0002 L on a host without a
    sensor interface (each update accounts 0.00025 L); the payload of
    every tile is 4096 halves. *)
Definition scenario_cfg : Pipeline.Config :=
  Pipeline.mkConfig (Some "out"%string) (Some "http://sampler/"%string)
                    (Some (2 # 10000)) (Some 100) (Some 3) None.

Definition scenario_env (idx : nat) : Pipeline.tile_env :=
  Pipeline.mkEnv (repeat (1 # 2) 4096) true
                 ResourceManager.NoSensorsTemperatures.

(** A run of four tiles with an ample budget in which the super-sampling
    request of the tile with index 2 fails. *)
Definition outage_cfg : Pipeline.Config :=
  Pipeline.mkConfig (Some "out/"%string) (Some "http://sampler"%string)
                    (Some (1 # 1)) (Some 10) (Some 4) (Some (1 # 2)).

Definition outage_env (idx : nat) : Pipeline.tile_env :=
  Pipeline.mkEnv [1 # 10; -2 # 10; 5 # 100; 0 # 1]%Q (negb (idx =? 2)%nat)
                 ResourceManager.NoSensorsTemperatures.

(** The same host with a sensor at 45 degrees and a sampler that always
    answers. *)
Definition steady_env (idx : nat) : Pipeline.tile_env :=
  Pipeline.mkEnv [1 # 10; -2 # 10; 5 # 100; 0 # 1]%Q true
                 (ResourceManager.SensorsTemperatures
                    (ResourceManager.Dict [("coretemp"%string, [45 # 1]%Q)])).

(** A string of [n] slashes. *)
Fixpoint slashes (n : nat) : string :=
  match n with
  | O => EmptyString
  | S k => String "/" (slashes k)
  end.

(** A configuration with another sampler address. *)
Definition with_sampler_url (cfg : Pipeline.Config) (address : string)
    : Pipeline.Config :=
  Pipeline.mkConfig (Pipeline.output_dir cfg) (Some address)
                    (Pipeline.water_limit cfg) (Pipeline.fib_modulus cfg)
                    (Pipeline.num_tiles cfg) (Pipeline.loop_delay cfg).

(** The Fibonacci numbers 0, 1, 1, 2, 3, 5, 8, ... *)
Fixpoint fib (n : nat) : Z :=
  match n with
  | O => 0
  | S k =>
      match k with
      | O => 1
      | S j => fib k + fib j
      end
  end.

(** The coordinate pair of call number [i + 1] after a reset, in terms of
    the Fibonacci numbers. *)
Definition fib_coord (M : Z) (i : nat) : Q * Q :=
  (coord (fib (S i)) M, coord (fib (S (S i))) M).

(** * Properties *)

(** ** The tile coordinate generator *)

Section Scheduler.

Import FrameScheduler.

Lemma next_tile_uv_eq (s : t) :
  modulus s <> 0 ->
  next_tile_uv s =
    Ok ((coord (cur s) (modulus s),
         coord ((prev s + cur s) mod modulus s) (modulus s)),
        mk (cur s) ((prev s + cur s) mod modulus s) (modulus s)).
Proof.
  intros Hm. unfold next_tile_uv, py_mod, py_truediv, coord; cbn.
  apply Z.eqb_neq in Hm. now rewrite Hm.
Qed.

Lemma coord_in_unit_interval (a m : Z) :
  0 < m -> in_unit_interval (coord a m).
Proof.
  intros Hm. unfold in_unit_interval, coord.
  pose proof (Z.mod_pos_bound a m Hm) as [Hlo Hhi].
  assert (Hq : (0 < inject_Z m)%Q) by (unfold Qlt; cbn; lia).
  split.
  - apply Qle_shift_div_l; [exact Hq|].
    rewrite Qmult_0_l. unfold Qle; cbn; lia.
  - apply Qlt_shift_div_r; [exact Hq|].
    rewrite Qmult_1_l. unfold Qlt; cbn; lia.
Qed.

Lemma calls_total (n : nat) :
  forall s, modulus s <> 0 ->
    exists coords s',
      calls n s = Ok (coords, s') /\ modulus s' = modulus s /\
      List.length coords = n.
Proof.
  induction n as [|n IH]; intros s Hm.
  - exists [], s. cbn. auto.
  - cbn [calls]. rewrite (next_tile_uv_eq s Hm). cbn [bind snd fst].
    destruct (IH (mk (cur s) ((prev s + cur s) mod modulus s) (modulus s)))
      as (coords & s' & Hc & Hmod & Hlen); [exact Hm|].
    rewrite Hc. cbn [bind fst snd].
    eexists _, s'. split; [reflexivity|]. split; [exact Hmod|].
    cbn. now rewrite Hlen.
Qed.

Lemma reset_eq (g : t) : reset g = mk 0 1 (modulus g).
Proof. reflexivity. Qed.

(** C4.  For every modulus [M >= 2] and every [n], the coordinates of
    [n] calls after [reset()] are one sequence that depends on [M] and
    [n] only: every generator with that modulus produces it, and
    produces it again when it is reset and called [n] times once more. *)
Theorem reset_then_calls_is_function_of_modulus_and_count (M : Z) (n : nat) :
  2 <= M ->
  exists coords : list (Q * Q),
    forall g : t, modulus g = M ->
      exists g1 g2 : t,
        calls n (reset g) = Ok (coords, g1) /\
        calls n (reset g1) = Ok (coords, g2).
Proof.
  intros HM.
  destruct (calls_total n (mk 0 1 M)) as (coords & s' & Hc & Hmod & _);
    [cbn; lia|].
  exists coords. intros g Hg.
  exists s', s'. rewrite !reset_eq, Hg, Hmod. cbn [modulus].
  split; exact Hc.
Qed.

Lemma calls_in_unit_square (n : nat) :
  forall s coords s', 0 < modulus s ->
    calls n s = Ok (coords, s') -> Forall in_unit_square coords.
Proof.
  induction n as [|n IH]; intros s coords s' Hm.
  - cbn. intros [= <- _]. constructor.
  - cbn [calls]. rewrite (next_tile_uv_eq s) by lia. cbn [bind snd fst].
    destruct (calls n _) as [[cs s2]|e] eqn:Hc; cbn; [|discriminate].
    intros [= <- _]. constructor.
    + split; cbn; apply coord_in_unit_interval; exact Hm.
    + eapply IH; [|exact Hc]. exact Hm.
Qed.


Lemma calls_snoc (n : nat) :
  forall s coords s' uv s'',
    calls n s = Ok (coords, s') ->
    next_tile_uv s' = Ok (uv, s'') ->
    calls (S n) s = Ok (coords ++ [uv], s'').
Proof.
  induction n as [|n IH]; intros s coords s' uv s'' Hc Hn.
  - cbn in Hc. injection Hc as <- <-. cbn. rewrite Hn. reflexivity.
  - cbn [calls] in Hc.
    destruct (next_tile_uv s) as [[uv0 s0]|e] eqn:H0; cbn in Hc;
      [|discriminate].
    destruct (calls n s0) as [[cs s1]|e] eqn:H1; cbn in Hc; [|discriminate].
    injection Hc as <- <-.
    change (calls (S (S n)) s) with
      (r <- next_tile_uv s ;; rest <- calls (S n) (snd r) ;;
       Ok (fst r :: fst rest, snd rest)).
    rewrite H0. cbn [bind snd fst].
    rewrite (IH s0 cs s1 uv s'' H1 Hn). reflexivity.
Qed.

(** C10.  For every modulus [M >= 2] and every [n >= 1], the [u] of call
    [n + 1] after a reset is the [v] of call [n]. *)
Theorem next_u_is_previous_v (g : t) (n : nat) :
  2 <= modulus g -> (1 <= n)%nat ->
  exists coords g' a b,
    calls (S n) (reset g) = Ok (coords, g') /\
    nth_error coords (n - 1) = Some a /\
    nth_error coords n = Some b /\
    fst b = snd a.
Proof.
  intros HM Hn.
  destruct n as [|k]; [lia|]. replace (S k - 1)%nat with k by lia.
  destruct (calls_total k (reset g)) as (cs & s1 & Hc1 & Hm1 & Hl1);
    [cbn; lia|].
  cbn [reset modulus] in Hm1.
  assert (H1 : modulus s1 <> 0) by lia.
  pose proof (next_tile_uv_eq s1 H1) as Hn1.
  set (s2 := mk (cur s1) ((prev s1 + cur s1) mod modulus s1) (modulus s1))
    in *.
  assert (H2 : modulus s2 <> 0) by exact H1.
  pose proof (next_tile_uv_eq s2 H2) as Hn2.
  pose proof (calls_snoc _ _ _ _ _ _ Hc1 Hn1) as Hc2.
  pose proof (calls_snoc _ _ _ _ _ _ Hc2 Hn2) as Hc3.
  eexists _, _, _, _. split; [exact Hc3|].
  split; [|split].
  - rewrite <- app_assoc, nth_error_app2 by lia.
    rewrite Hl1, Nat.sub_diag. reflexivity.
  - rewrite nth_error_app2 by (rewrite length_app; cbn; lia).
    rewrite length_app, Hl1. cbn [List.length].
    replace (S k - (k + 1))%nat with 0%nat by lia. reflexivity.
  - cbn. reflexivity.
Qed.

End Scheduler.

Section SchedulerScenario.

Import FrameScheduler.

(** C3, as stated, fails: with modulus 100 the first call after a reset
    does not return [u = 0.01, v = 0.02]. *)
Lemma first_call_is_not_001_002 :
  ~ exists u v g',
      next_tile_uv (reset (init 100)) = Ok ((u, v), g') /\
      (u == 1 # 100)%Q /\ (v == 2 # 100)%Q.
Proof.
  intros (u & v & g' & H & _ & Hv).
  vm_compute in H. injection H as _ <- _.
  vm_compute in Hv. discriminate Hv.
Qed.

(** C3, amended.  With modulus 100, calls 1..5 after a reset return the
    pairs of consecutive terms of 1, 1, 2, 3, 5, 8 divided by 100; the
    first call returns [u = 0.01, v = 0.01] and the second
    [u = 0.01, v = 0.02]. *)
Theorem modulus_100_first_five_calls (p c : Z) :
  calls 5 (reset (mk p c 100)) =
    Ok ([ (1 # 100, 1 # 100); (1 # 100, 2 # 100); (2 # 100, 3 # 100);
          (3 # 100, 5 # 100); (5 # 100, 8 # 100) ]%Q,
        mk 5 8 100).
Proof. reflexivity. Qed.

Lemma reset_then_calls_witness :
  2 <= 100 /\
  exists coords : list (Q * Q),
    forall g : t, modulus g = 100 ->
      exists g1 g2 : t,
        calls 5 (reset g) = Ok (coords, g1) /\
        calls 5 (reset g1) = Ok (coords, g2).
Proof.
  split; [lia|].
  apply (reset_then_calls_is_function_of_modulus_and_count 100 5). lia.
Defined.


Lemma next_u_is_previous_v_witness :
  2 <= modulus (init 100) /\ (1 <= 3)%nat /\
  exists coords g' a b,
    calls 4 (reset (init 100)) = Ok (coords, g') /\
    nth_error coords 2 = Some a /\
    nth_error coords 3 = Some b /\
    fst b = snd a.
Proof.
  split; [cbn; lia|]. split; [lia|].
  apply (next_u_is_previous_v (init 100) 3); [cbn; lia | lia].
Defined.

End SchedulerScenario.

(** ** The resource budget gate *)

Section Gate.

Import ResourceManager.

Lemma py_max_0_nonneg (x : Q) : (0 <= py_max 0 x)%Q.
Proof.
  unfold py_max. destruct (Qle_bool x 0) eqn:H.
  - apply Qle_refl.
  - destruct (Qlt_le_dec 0 x) as [Hlt|Hle].
    + apply Qlt_le_weak, Hlt.
    + apply Qle_bool_iff in Hle. rewrite Hle in H. discriminate H.
Qed.

Lemma account_used (current : Q) (m : t) :
  (used m <= used (account current m))%Q /\
  water_limit (account current m) = water_limit m.
Proof.
  split; [|reflexivity]. unfold account; cbn [used].
  rewrite <- (Qplus_0_r (used m)) at 1.
  apply Qplus_le_r.
  apply Qmult_le_0_compat; [apply py_max_0_nonneg | discriminate].
Qed.

Lemma first_sensor_used (items : list (string * list Q)) (m : t) :
  (used m <= used (snd (first_sensor items m)))%Q /\
  water_limit (snd (first_sensor items m)) = water_limit m.
Proof.
  induction items as [|[name entries] rest IH]; cbn.
  - split; [apply Qle_refl | reflexivity].
  - destruct entries as [|e0 es]; [exact IH|]. apply account_used.
Qed.

Lemma update_used (ps : psutil) (m : t) :
  (used m <= used (update ps m))%Q /\
  water_limit (update ps m) = water_limit m.
Proof.
  destruct ps as [|[|items]]; cbn [update].
  - apply account_used.
  - apply account_used.
  - pose proof (first_sensor_used items m) as [Hu Hl].
    destruct (first_sensor items m) as [found m1]; cbn [snd] in *.
    destruct found; [now split|].
    pose proof (account_used 35 m1) as [Hu' Hl'].
    split; [eapply Qle_trans; eassumption | congruence].
Qed.

(** C7.  Whatever the sensors answer (a reading, none, or no sensor
    interface at all, where the fallback reading is used), [used] after
    [update()] is at least [used] before it. *)
Theorem update_never_decreases_used (ps : psutil) (m : t) :
  (used m <= used (update ps m))%Q.
Proof. apply update_used. Qed.

Lemma updates_used (readings : list psutil) :
  forall m,
    (used m <= used (updates readings m))%Q /\
    water_limit (updates readings m) = water_limit m.
Proof.
  unfold updates.
  induction readings as [|ps rest IH]; intros m; cbn [fold_left].
  - split; [apply Qle_refl | reflexivity].
  - destruct (IH (update ps m)) as [Hu Hl].
    destruct (update_used ps m) as [Hu' Hl'].
    split; [eapply Qle_trans; eassumption | congruence].
Qed.

Lemma gate_raise_iff (m : t) :
  (exists e, gate m = Raise e) <-> (water_limit m <= used m)%Q.
Proof.
  unfold gate. rewrite <- Qle_bool_iff.
  destruct (Qle_bool (water_limit m) (used m)); split.
  - reflexivity.
  - eauto.
  - intros [e H]; discriminate.
  - discriminate.
Qed.

(** C8.  Once [gate()] has raised the budget error, it raises it again
    at every later call on the same manager, however many [update()]
    calls lie in between: nothing resets the exceeded budget. *)
Theorem gate_stays_exceeded (m : t) (e : exn) (later : list psutil) :
  gate m = Raise e ->
  gate (updates later m) =
    Raise (RuntimeError (used (updates later m)) (water_limit m)) /\
  (water_limit m <= used (updates later m))%Q.
Proof.
  intros H.
  assert (Hm : (water_limit m <= used m)%Q)
    by (apply gate_raise_iff; eauto).
  destruct (updates_used later m) as [Hu Hl].
  assert (Hle : (water_limit m <= used (updates later m))%Q)
    by (eapply Qle_trans; eassumption).
  split; [|exact Hle].
  unfold gate. rewrite Hl.
  apply Qle_bool_iff in Hle. now rewrite Hle.
Qed.

Lemma gate_stays_exceeded_witness :
  let m := mk (1 # 1000) (1 # 1000) in
  let later := [NoSensorsTemperatures;
                SensorsTemperatures (Dict [("cpu"%string, [20 # 1])])] in
  gate m = Raise (RuntimeError (1 # 1000) (1 # 1000)) /\
  gate (updates later m) =
    Raise (RuntimeError (used (updates later m)) (water_limit m)) /\
  (water_limit m <= used (updates later m))%Q.
Proof.
  intros m later. split; [reflexivity|].
  apply (gate_stays_exceeded m (RuntimeError (1 # 1000) (1 # 1000)) later).
  reflexivity.
Defined.

End Gate.

(** ** The quantizing codec *)

Section Codec.

Import GoldenRatioCompressor.

Lemma Z_of_byte_of_Z (z : Z) : Z_of_byte (byte_of_Z z) = z mod 256.
Proof.
  unfold Z_of_byte, byte_of_Z.
  pose proof (Z.mod_pos_bound z 256 eq_refl) as Hb.
  destruct (Byte.of_N (Z.to_N (z mod 256))) as [b|] eqn:E.
  - apply Byte.to_of_N in E. rewrite E. apply Z2N.id. lia.
  - apply Byte.of_N_None_iff in E. lia.
Qed.

Lemma int16_bytes_roundtrip (c : Z) :
  int16 c -> int16_frombytes (byte_of_Z c) (byte_of_Z (c / 256)) = c.
Proof.
  unfold int16, int16_frombytes. intros Hc.
  rewrite !Z_of_byte_of_Z.
  destruct (Z.ltb_spec (c mod 256 + 256 * ((c / 256) mod 256)) 32768);
    Z.div_mod_to_equations; lia.
Qed.

Lemma astype_int16_range (z : Z) : int16 (astype_int16 z).
Proof. unfold int16, astype_int16. Z.div_mod_to_equations; lia. Qed.

Lemma astype_int16_id (z : Z) : int16 z -> astype_int16 z = z.
Proof. unfold int16, astype_int16. intros H. Z.div_mod_to_equations; lia. Qed.

Lemma astype_int16_congruent (z : Z) : (astype_int16 z - z) mod 65536 = 0.
Proof. unfold astype_int16. Z.div_mod_to_equations; lia. Qed.

Lemma astype_int16_wraps (z : Z) : ~ int16 z -> astype_int16 z <> z.
Proof.
  intros H E. apply H. rewrite <- E. apply astype_int16_range.
Qed.

Lemma length_tobytes (cells : list Z) :
  List.length (tobytes cells) = (2 * List.length cells)%nat.
Proof.
  unfold tobytes. induction cells as [|c cs IH]; cbn; [reflexivity|].
  rewrite IH. lia.
Qed.

Lemma read_int16_tobytes (cells : list Z) (extra : list byte) :
  Forall int16 cells ->
  read_int16 (List.length cells) (tobytes cells ++ extra) = cells.
Proof.
  unfold tobytes. induction 1 as [|c cs Hc _ IH]; cbn.
  - reflexivity.
  - now rewrite int16_bytes_roundtrip, IH.
Qed.

Lemma scaled_int16 (data : list Q) : Forall int16 (scaled data).
Proof.
  unfold scaled. apply Forall_map, Forall_forall. intros x _.
  apply astype_int16_range.
Qed.

Lemma length_scaled (data : list Q) :
  List.length (scaled data) = List.length data.
Proof. apply length_map. Qed.

Lemma frombuffer_compress (data : list Q) :
  frombuffer (compress data) (List.length data) = Ok (scaled data).
Proof.
  unfold frombuffer, compress.
  rewrite length_tobytes, length_scaled, Nat.ltb_irrefl.
  rewrite <- (length_scaled data), <- (app_nil_r (tobytes _)).
  now rewrite read_int16_tobytes by apply scaled_int16.
Qed.

Lemma length_read_int16 (count : nat) :
  forall blob, (2 * count <= List.length blob)%nat ->
    List.length (read_int16 count blob) = count.
Proof.
  induction count as [|k IH]; intros blob H; [reflexivity|].
  destruct blob as [|lo [|hi rest]]; cbn in H; try lia.
  cbn. rewrite IH by lia. reflexivity.
Qed.

Lemma read_int16_firstn (count : nat) :
  forall blob,
    read_int16 count (firstn (2 * count) blob) = read_int16 count blob.
Proof.
  induction count as [|k IH]; intros blob.
  - destruct blob; reflexivity.
  - replace (2 * S k)%nat with (S (S (2 * k))) by lia.
    destruct blob as [|lo [|hi rest]]; cbn [firstn read_int16];
      try reflexivity.
    now rewrite IH.
Qed.



(** C6, as stated, fails: a blob of four bytes is decoded with a declared
    length of one. *)
Lemma decompress_accepts_longer_blob :
  List.length [x01; x00; x02; x00] <> (2 * 1)%nat /\
  decompress [x01; x00; x02; x00] 1 = Ok [1 / (PHI * 1000)]%Q.
Proof. split; [discriminate | reflexivity]. Qed.

(** C6, amended.  [decompress(blob, length)] fails exactly when the blob
    holds fewer than [2 * length] bytes; otherwise it succeeds and
    returns [length] elements, decoded from the first [2 * length] bytes
    of the blob. *)
Theorem decompress_fails_iff_blob_too_short (blob : list byte) (n : nat) :
  ((exists e, decompress blob n = Raise e) <->
   (List.length blob < 2 * n)%nat) /\
  ((exists out, decompress blob n = Ok out /\ List.length out = n /\
                decompress (firstn (2 * n) blob) n = Ok out) <->
   (2 * n <= List.length blob)%nat).
Proof.
  unfold decompress, frombuffer.
  destruct (Nat.ltb_spec (List.length blob) (2 * n)) as [Hlt|Hge];
    cbn [bind].
  - split; split.
    + intros _. exact Hlt.
    + intros _. eauto.
    + intros (out & H & _). discriminate.
    + lia.
  - split; split.
    + intros [e H]. discriminate.
    + lia.
    + intros _. exact Hge.
    + intros _. eexists. split; [reflexivity|].
      split; [now rewrite length_map, length_read_int16|].
      rewrite length_firstn.
      destruct (Nat.ltb_spec (Nat.min (2 * n) (List.length blob)) (2 * n));
        [lia|].
      cbn [bind]. now rewrite read_int16_firstn.
Qed.

Lemma decompress_fails_iff_witness :
  exists out, decompress [x01; x00; x02; x00] 1 = Ok out /\
              List.length out = 1%nat /\
              decompress (firstn (2 * 1) [x01; x00; x02; x00]) 1 = Ok out.
Proof.
  apply (proj2 (decompress_fails_iff_blob_too_short [x01; x00; x02; x00] 1)).
  cbn. lia.
Defined.

End Codec.

Section RoundTrip.

Import GoldenRatioCompressor.

Lemma step_pos : (0 < step)%Q.
Proof. reflexivity. Qed.

Lemma np_round_spec (q : Q) :
  let d := Z.pos (Qden q) in
  2 * np_round q * d - d <= 2 * Qnum q <= 2 * np_round q * d + d.
Proof.
  cbv zeta. unfold np_round.
  set (n := Qnum q). set (d := Z.pos (Qden q)).
  assert (Hd : 0 < d) by (unfold d; lia).
  pose proof (Z.div_mod n d ltac:(lia)) as Hdm.
  pose proof (Z.mod_pos_bound n d Hd) as Hb.
  destruct (Z.compare_spec (2 * (n mod d)) d) as [He|Hl|Hg];
    [destruct (Z.even (n / d))| |]; nia.
Qed.

Lemma np_round_error (q : Q) : (Qabs (q - inject_Z (np_round q)) <= 1 # 2)%Q.
Proof.
  pose proof (np_round_spec q) as H. cbv zeta in H.
  apply Qabs_Qle_condition.
  destruct q as [n d]. cbn [Qnum Qden] in H.
  unfold Qle, Qminus, Qplus, Qopp, inject_Z; cbn [Qnum Qden].
  split; lia.
Qed.

Lemma np_round_between (q : Q) (lo hi : Z) :
  (inject_Z lo <= q)%Q -> (q <= inject_Z hi)%Q -> lo <= np_round q <= hi.
Proof.
  pose proof (np_round_spec q) as H. cbv zeta in H.
  destruct q as [n d]. cbn [Qnum Qden] in H.
  unfold Qle, inject_Z; cbn [Qnum Qden]. intros Hlo Hhi.
  split; nia.
Qed.

Lemma scaled_representable (x : Q) :
  representable x ->
  astype_int16 (np_round (x * PHI * 1000)%Q) = np_round (x * PHI * 1000)%Q.
Proof.
  intros [Hlo Hhi]. apply astype_int16_id.
  apply (np_round_between _ (-32768) 32767); assumption.
Qed.

Lemma dequantize_error (x : Q) :
  (Qabs (x - inject_Z (np_round (x * PHI * 1000)) / (PHI * 1000))
   <= (1 # 2) / (PHI * 1000))%Q.
Proof.
  fold step.
  pose proof step_pos as Hs.
  apply Qle_shift_div_l; [exact Hs|].
  rewrite <- (Qabs_pos step) at 2 by (apply Qlt_le_weak, Hs).
  rewrite <- Qabs_Qmult.
  assert (E : ((x - inject_Z (np_round (x * PHI * 1000)) / step) * step
               == x * PHI * 1000 - inject_Z (np_round (x * PHI * 1000)))%Q).
  { unfold step. field. discriminate. }
  rewrite E. apply np_round_error.
Qed.



End RoundTrip.

(** ** The production loop *)

Section Orchestrator.

Import Pipeline.

Variable cfg : Config.
Variable env : nat -> tile_env.
Variables out_dir base_url : string.

Let url : string := (base_url ++ "/supersample")%string.
Let delay : Q := get (loop_delay cfg) (1 # 10).
Let body : nat -> prog unit := tile cfg out_dir base_url env.

Lemma for_each_app (l1 l2 : list nat) (f : nat -> prog unit) (w : world) :
  for_each (l1 ++ l2) f w =
    match for_each l1 f w with
    | (Ok _, w1) => for_each l2 f w1
    | (Raise e, w1) => (Raise e, w1)
    end.
Proof.
  revert w. induction l1 as [|i l1 IH]; intros w.
  - reflexivity.
  - rewrite <- app_comm_cons. cbn [for_each]. unfold seq_bind.
    destruct (f i w) as [[[]|e] w1]; [apply IH|reflexivity].
Qed.

(** An iteration that ends normally. *)
Lemma tile_ok (idx : nat) (w w' : world) :
  body idx w = (Ok tt, w') ->
  exists uv,
    FrameScheduler.next_tile_uv (scheduler w) = Ok (uv, scheduler w') /\
    trace w' = trace w ++ tile_events out_dir url idx uv ++ [Sleep delay] /\
    manager w' = ResourceManager.update (sensors (env idx)) (manager w) /\
    ResourceManager.gate (manager w') = Ok tt.
Proof.
  unfold body, tile, seq_bind, scheduler_next_tile_uv, lift, supersample,
    manager_update, manager_gate, emit, ret.
  destruct (FrameScheduler.next_tile_uv (scheduler w)) as [[uv s1]|e];
    [|discriminate].
  destruct (GoldenRatioCompressor.decompress _ _) as [recon|e];
    [|discriminate].
  destruct (allclose _ _ _); [|discriminate].
  destruct (sampler_ok (env idx)); cbn -[ResourceManager.gate];
    [|discriminate].
  destruct (ResourceManager.gate _) as [[]|e] eqn:Hg; [|discriminate].
  intros [= <-]. cbn [scheduler trace manager].
  exists uv. repeat split; try assumption.
  rewrite <- !app_assoc. reflexivity.
Qed.

(** An iteration that ends with the budget error: it is the gate that
    raised, after the tile's two files were written. *)
Lemma tile_budget (idx : nat) (w w' : world) (u l : Q) :
  body idx w = (Raise (RuntimeError u l), w') ->
  exists uv,
    FrameScheduler.next_tile_uv (scheduler w) = Ok (uv, scheduler w') /\
    trace w' = trace w ++ tile_events out_dir url idx uv /\
    manager w' = ResourceManager.update (sensors (env idx)) (manager w) /\
    ResourceManager.gate (manager w') = Raise (RuntimeError u l).
Proof.
  unfold body, tile, seq_bind, scheduler_next_tile_uv, lift, supersample,
    manager_update, manager_gate, emit, ret.
  destruct (FrameScheduler.next_tile_uv (scheduler w)) as [[uv s1]|e] eqn:Hn.
  2:{ intros [= -> <-].
      unfold FrameScheduler.next_tile_uv, FrameScheduler.py_mod,
        FrameScheduler.py_truediv in Hn. cbn in Hn.
      destruct (FrameScheduler.modulus (scheduler w) =? 0);
        cbn in Hn; discriminate. }
  unfold GoldenRatioCompressor.decompress, GoldenRatioCompressor.frombuffer.
  destruct (Nat.ltb _ _); cbn [bind]; [discriminate|].
  destruct (allclose _ _ _); [|discriminate].
  destruct (sampler_ok (env idx)); cbn -[ResourceManager.gate];
    [|discriminate].
  destruct (ResourceManager.gate _) as [[]|e] eqn:Hg; [discriminate|].
  intros [= -> <-]. cbn [scheduler trace manager].
  exists uv. repeat split; try assumption.
  rewrite <- !app_assoc. reflexivity.
Qed.

(** Iterations that all end normally. *)
Lemma for_each_ok (n : nat) :
  forall (first : nat) (w w' : world),
    for_each (seq first n) body w = (Ok tt, w') ->
    exists coords,
      FrameScheduler.calls n (scheduler w) = Ok (coords, scheduler w') /\
      List.length coords = n /\
      trace w' = trace w ++ passed_trace out_dir url delay first coords /\
      manager w' =
        ResourceManager.updates (map (sensors_at env) (seq first n))
                                (manager w).
Proof.
  induction n as [|n IH]; intros first w w'; cbn [seq for_each].
  - intros [= <-]. exists []. cbn. now rewrite app_nil_r.
  - unfold seq_bind.
    destruct (body first w) as [[[]|e] w1] eqn:Hb; [|discriminate].
    intros Hrest.
    destruct (tile_ok _ _ _ Hb) as (uv & Hn & Ht & Hm & _).
    destruct (IH _ _ _ Hrest) as (coords & Hc & Hl & Ht' & Hm').
    exists (uv :: coords). cbn [FrameScheduler.calls].
    rewrite Hn. cbn [bind fst snd]. rewrite Hc. cbn [bind fst snd].
    repeat split.
    + cbn. now rewrite Hl.
    + rewrite Ht', Ht. cbn [passed_trace].
      rewrite <- !app_assoc. reflexivity.
    + rewrite Hm', Hm. reflexivity.
Qed.

Lemma files_written_app (t1 t2 : list event) :
  files_written (t1 ++ t2) = files_written t1 ++ files_written t2.
Proof. apply flat_map_app. Qed.

Lemma files_written_passed (coords : list (Q * Q)) :
  forall first,
    files_written (passed_trace out_dir url delay first coords) =
    flat_map (tile_files out_dir) (seq first (List.length coords)).
Proof.
  induction coords as [|uv rest IH]; intros first; cbn; [reflexivity|].
  now rewrite IH.
Qed.

End Orchestrator.

Section Abort.

Import Pipeline.

(** C9.  When tiles [0 .. k-1] have passed and the body of tile [k]
    ends with the budget error, that error was raised by the gate after
    the tile's work; [run_pipeline] ends there in [Aborted]; its trace
    is the directory creation followed by the work of tiles [0 .. k]
    alone, the generator has been called [k + 1] times, and the files
    written are the file pairs of tiles [0 .. k]. *)
Theorem budget_abort_stops_after_tile
    (cfg : Config) (env : nat -> tile_env)
    (out_dir raw_url : string) (limit : Q)
    (k : nat) (wk wk' : world) (u l : Q) :
  output_dir cfg = Some out_dir ->
  super_sampler_url cfg = Some raw_url ->
  water_limit cfg = Some limit ->
  (k < List.length (range (get (num_tiles cfg) 24%Z)))%nat ->
  for_each (seq 0 k) (tile cfg out_dir (rstrip_slash raw_url) env)
           (start cfg out_dir limit) = (Ok tt, wk) ->
  tile cfg out_dir (rstrip_slash raw_url) env k wk
    = (Raise (RuntimeError u l), wk') ->
  ResourceManager.gate (manager wk') = Raise (RuntimeError u l) /\
  manager wk' =
    ResourceManager.updates (map (sensors_at env) (seq 0 (S k)))
                            (ResourceManager.init limit) /\
  run_pipeline cfg env = (Raise (RuntimeError u l), trace wk') /\
  final_state (fst (run_pipeline cfg env)) = Aborted (RuntimeError u l) /\
  files_written (trace wk') = flat_map (tile_files out_dir) (seq 0 (S k)) /\
  exists passed uv,
    List.length passed = k /\
    FrameScheduler.calls (S k)
      (FrameScheduler.reset
         (FrameScheduler.init (get (fib_modulus cfg) 100000)))
      = Ok (passed ++ [uv], scheduler wk') /\
    trace wk' =
      Makedirs out_dir ::
      passed_trace out_dir (rstrip_slash raw_url ++ "/supersample")
                   (get (loop_delay cfg) (1 # 10)) 0 passed ++
      tile_events out_dir (rstrip_slash raw_url ++ "/supersample") k uv.
Proof.
  intros Hout Hurl Hlim Hk Hpre Hgate.
  destruct (for_each_ok _ _ _ _ _ _ _ _ Hpre)
    as (passed & Hcalls & Hlen & Htr & Hmgr).
  destruct (tile_budget _ _ _ _ _ _ _ _ _ Hgate)
    as (uv & Hnext & Htr' & Hmgr' & Hg).
  cbn [start scheduler manager trace] in Hcalls, Htr, Hmgr.
  assert (Hrun : run_pipeline cfg env = (Raise (RuntimeError u l), trace wk')).
  { unfold run_pipeline. rewrite Hout, Hurl, Hlim. cbn [item].
    unfold range in *. rewrite length_seq in Hk.
    replace (Z.to_nat (get (num_tiles cfg) 24%Z))
      with (k + S (Z.to_nat (get (num_tiles cfg) 24%Z) - S k))%nat by lia.
    rewrite seq_app, for_each_app, Hpre. cbn [seq for_each Nat.add].
    unfold seq_bind at 1. rewrite Hgate. reflexivity. }
  split; [exact Hg|].
  split.
  { rewrite Hmgr', Hmgr, seq_S, map_app. unfold ResourceManager.updates.
    rewrite fold_left_app. reflexivity. }
  split; [exact Hrun|].
  split; [now rewrite Hrun|].
  split.
  - rewrite Htr', Htr, !files_written_app, files_written_passed, Hlen.
    rewrite seq_S, flat_map_app. cbn. reflexivity.
  - exists passed, uv. split; [exact Hlen|]. split.
    + eapply calls_snoc; eassumption.
    + rewrite Htr', Htr. cbn [app]. now rewrite <- app_assoc.
Qed.

Lemma budget_abort_scenario :
  let w0 := start scenario_cfg "out" (2 # 10000) in
  let w1 :=
    mkWorld (FrameScheduler.mk 1 1 100)
            (ResourceManager.mk (2 # 10000) (0 + 5 * (5 # 100000)))
            [Makedirs "out";
             ExportTile (1 # 100) (1 # 100) "out/tile_000.png";
             Supersample "http://sampler/supersample"
                         "out/tile_000.png" "out/final_000.png"] in
  let err := RuntimeError (0 + 5 * (5 # 100000)) (2 # 10000) in
  (0 < List.length (range (get (num_tiles scenario_cfg) 24%Z)))%nat /\
  List.length (range (get (num_tiles scenario_cfg) 24%Z)) = 3%nat /\
  tile scenario_cfg "out" (rstrip_slash "http://sampler/") scenario_env 0 w0
    = (Raise err, w1) /\
  run_pipeline scenario_cfg scenario_env = (Raise err, trace w1) /\
  final_state (fst (run_pipeline scenario_cfg scenario_env)) = Aborted err /\
  files_written (trace w1) = ["out/tile_000.png"; "out/final_000.png"]%string.
Proof.
  intros w0 w1 err.
  assert (H0 : (0 < List.length (range (get (num_tiles scenario_cfg) 24%Z)))%nat)
    by (vm_compute; lia).
  assert (Ht : tile scenario_cfg "out" (rstrip_slash "http://sampler/")
                    scenario_env 0 w0 = (Raise err, w1))
    by (vm_compute; reflexivity).
  destruct (budget_abort_stops_after_tile
              scenario_cfg scenario_env "out" "http://sampler/" (2 # 10000)
              0 w0 w1 (0 + 5 * (5 # 100000)) (2 # 10000)
              eq_refl eq_refl eq_refl H0 eq_refl Ht)
    as (_ & _ & Hrun & Hfin & Hfiles & _).
  repeat split; try assumption. 
Defined.

End Abort.


(** * Further properties of the code *)

(** ** The generator and the Fibonacci numbers *)

Section SchedulerFibonacci.

Import FrameScheduler.

Lemma fib_step (n : nat) : fib (S (S n)) = fib (S n) + fib n.
Proof. reflexivity. Qed.

Lemma coord_mod (a m : Z) : coord (a mod m) m = coord a m.
Proof. unfold coord. now rewrite Zmod_mod. Qed.

Lemma calls_from_seed (M : Z) (n : nat) :
  2 <= M ->
  calls n (mk 0 1 M) =
    Ok (map (fib_coord M) (seq 0 n), mk (fib n mod M) (fib (S n) mod M) M).
Proof.
  intros HM. induction n as [|n IH].
  - cbn [calls seq map fib]. rewrite Z.mod_0_l by lia.
    rewrite Z.mod_small by lia. reflexivity.
  - rewrite seq_S, map_app. cbn [map Nat.add].
    eapply calls_snoc; [exact IH|].
    rewrite next_tile_uv_eq by (cbn; lia). cbn [prev cur modulus].
    unfold fib_coord. rewrite fib_step.
    rewrite <- Zplus_mod, (Z.add_comm (fib n)), !coord_mod. reflexivity.
Qed.

(** X1.  After a reset, call number [i + 1] returns the Fibonacci numbers
    [F(i+1)] and [F(i+2)], reduced modulo [M] and divided by [M], and after
    [n] calls the generator holds [F(n) mod M] and [F(n+1) mod M]. *)
Theorem calls_after_reset_are_fibonacci (g : t) (n : nat) :
  2 <= modulus g ->
  calls n (reset g) =
    Ok (map (fib_coord (modulus g)) (seq 0 n),
        mk (fib n mod modulus g) (fib (S n) mod modulus g) (modulus g)).
Proof. intros HM. rewrite reset_eq. now apply calls_from_seed. Qed.

Lemma calls_after_reset_are_fibonacci_witness :
  2 <= modulus (mk 7 9 10) /\
  calls 7 (reset (mk 7 9 10)) =
    Ok (map (fib_coord (modulus (mk 7 9 10))) (seq 0 7),
        mk (fib 7 mod modulus (mk 7 9 10))
           (fib 8 mod modulus (mk 7 9 10)) (modulus (mk 7 9 10))).
Proof.
  split; [cbn; lia|].
  apply (calls_after_reset_are_fibonacci (mk 7 9 10) 7). cbn; lia.
Defined.

(** X2.  After a reset, however many calls are made, both fields of the
    generator stay in [0, modulus) and the modulus never changes. *)
Theorem state_stays_below_modulus (g : t) (n : nat) :
  2 <= modulus g ->
  exists coords g',
    calls n (reset g) = Ok (coords, g') /\
    0 <= prev g' < modulus g /\
    0 <= cur g' < modulus g /\
    modulus g' = modulus g.
Proof.
  intros HM. rewrite reset_eq, calls_from_seed by exact HM.
  eexists _, _. split; [reflexivity|]. cbn [prev cur modulus].
  repeat split; try apply Z.mod_pos_bound; lia.
Qed.

Lemma state_stays_below_modulus_witness :
  2 <= modulus (init 2) /\
  exists coords g',
    calls 9 (reset (init 2)) = Ok (coords, g') /\
    0 <= prev g' < modulus (init 2) /\
    0 <= cur g' < modulus (init 2) /\
    modulus g' = modulus (init 2).
Proof.
  split; [cbn; lia|].
  apply (state_stays_below_modulus (init 2) 9). cbn; lia.
Defined.

End SchedulerFibonacci.

(** ** Blobs and reconstructions *)

Section CodecBlobs.

Import GoldenRatioCompressor.

Lemma Z_of_byte_range (b : byte) : 0 <= Z_of_byte b < 256.
Proof.
  unfold Z_of_byte. pose proof (Byte.to_N_bounded b). lia.
Qed.

Lemma byte_of_Z_mod (z : Z) (b : byte) :
  z mod 256 = Z_of_byte b -> byte_of_Z z = b.
Proof.
  intros H. unfold byte_of_Z. rewrite H. unfold Z_of_byte.
  now rewrite N2Z.id, Byte.of_to_N.
Qed.

Lemma int16_frombytes_range (lo hi : byte) : int16 (int16_frombytes lo hi).
Proof.
  unfold int16, int16_frombytes.
  pose proof (Z_of_byte_range lo). pose proof (Z_of_byte_range hi).
  destruct (Z.ltb_spec (Z_of_byte lo + 256 * Z_of_byte hi) 32768); lia.
Qed.

Lemma int16_tobytes_frombytes (lo hi : byte) :
  int16_tobytes (int16_frombytes lo hi) = [lo; hi].
Proof.
  unfold int16_tobytes, int16_frombytes.
  pose proof (Z_of_byte_range lo). pose proof (Z_of_byte_range hi).
  destruct (Z.ltb_spec (Z_of_byte lo + 256 * Z_of_byte hi) 32768);
    f_equal; [| f_equal | | f_equal]; apply byte_of_Z_mod;
    Z.div_mod_to_equations; lia.
Qed.

Lemma read_int16_range (count : nat) :
  forall blob, Forall int16 (read_int16 count blob).
Proof.
  induction count as [|k IH]; intros blob; [constructor|].
  destruct blob as [|lo [|hi rest]]; cbn; constructor.
  - apply int16_frombytes_range.
  - apply IH.
Qed.

Lemma tobytes_read_int16 (count : nat) :
  forall blob, (2 * count <= List.length blob)%nat ->
    tobytes (read_int16 count blob) = firstn (2 * count) blob.
Proof.
  unfold tobytes.
  induction count as [|k IH]; intros blob H; [reflexivity|].
  replace (2 * S k)%nat with (S (S (2 * k))) by lia.
  destruct blob as [|lo [|hi rest]]; cbn [List.length] in H; try lia.
  cbn [read_int16 flat_map firstn].
  rewrite int16_tobytes_frombytes, IH by lia. reflexivity.
Qed.

Lemma np_round_inject (q : Q) (c : Z) : (q == inject_Z c)%Q -> np_round q = c.
Proof.
  unfold Qeq, inject_Z, np_round; cbn [Qnum Qden]. intros H.
  rewrite Z.mul_1_r in H. rewrite H.
  rewrite Z.div_mul, Z.mod_mul by lia. cbn. reflexivity.
Qed.

Lemma requantize_cell (c : Z) :
  int16 c ->
  astype_int16 (np_round (inject_Z c / (PHI * 1000) * PHI * 1000)%Q) = c.
Proof.
  intros Hc. rewrite (np_round_inject _ c).
  - now apply astype_int16_id.
  - field. discriminate.
Qed.

Lemma requantize_cells (cells : list Z) :
  Forall int16 cells ->
  scaled (map (fun c => inject_Z c / (PHI * 1000))%Q cells) = cells.
Proof.
  unfold scaled. induction 1 as [|c cs Hc _ IH]; cbn [map]; [reflexivity|].
  now rewrite requantize_cell, IH.
Qed.

(** X3.  Every blob that [decompress] accepts is a fixed point of the
    codec: compressing the decompressed vector gives back the bytes that
    were read, the first [2 * length] bytes of the blob. *)
Theorem compress_after_decompress (blob : list byte) (n : nat) :
  (2 * n <= List.length blob)%nat ->
  exists out,
    decompress blob n = Ok out /\
    List.length out = n /\
    compress out = firstn (2 * n) blob.
Proof.
  intros H. unfold decompress, frombuffer.
  destruct (Nat.ltb_spec (List.length blob) (2 * n)); [lia|]. cbn [bind].
  eexists. split; [reflexivity|]. split.
  - now rewrite length_map, length_read_int16.
  - unfold compress.
    rewrite requantize_cells by apply read_int16_range.
    now apply tobytes_read_int16.
Qed.

Lemma compress_after_decompress_witness :
  (2 * 2 <= List.length [xff; x7f; x00; x80; x2a])%nat /\
  exists out,
    decompress [xff; x7f; x00; x80; x2a] 2 = Ok out /\
    List.length out = 2%nat /\
    compress out = firstn (2 * 2) [xff; x7f; x00; x80; x2a].
Proof.
  split; [cbn; lia|].
  apply (compress_after_decompress [xff; x7f; x00; x80; x2a] 2). cbn; lia.
Defined.

(** X4.  Compressing a reconstruction changes nothing: for every vector,
    the blob of [decompress(compress(x))] is the blob of [x]. *)
Theorem compress_is_idempotent_on_reconstructions (data : list Q) :
  exists recon,
    decompress (compress data) (List.length data) = Ok recon /\
    compress recon = compress data.
Proof.
  unfold decompress. rewrite frombuffer_compress. cbn [bind].
  eexists. split; [reflexivity|].
  unfold compress at 1.
  now rewrite requantize_cells by apply scaled_int16.
Qed.

Lemma dequantized_bounds (c : Z) :
  int16 c ->
  (inject_Z (-32768) / step <= inject_Z c / (PHI * 1000) /\
   inject_Z c / (PHI * 1000) <= inject_Z 32767 / step)%Q.
Proof.
  intros [Hlo Hhi]. fold step. unfold Qdiv.
  assert (Hi : (0 <= / step)%Q) by discriminate.
  split; (apply Qmult_le_compat_r; [|exact Hi]); rewrite <- Zle_Qle; lia.
Qed.

(** X5.  Whatever the blob holds, no element that [decompress] returns
    lies outside [-32768 / (PHI * 1000), 32767 / (PHI * 1000)], about
    -20.25 to 20.25. *)
Theorem decompress_values_are_bounded
    (blob : list byte) (n : nat) (out : list Q) :
  decompress blob n = Ok out ->
  Forall (fun y => inject_Z (-32768) / step <= y /\
                   y <= inject_Z 32767 / step)%Q out.
Proof.
  unfold decompress, frombuffer.
  destruct (Nat.ltb _ _); cbn [bind]; [discriminate|].
  intros [= <-]. apply Forall_map.
  eapply Forall_impl; [|apply read_int16_range].
  intros c Hc. now apply dequantized_bounds.
Qed.

Lemma decompress_values_are_bounded_witness :
  decompress [xff; x7f; x00; x80] 2
    = Ok [inject_Z 32767 / (PHI * 1000); inject_Z (-32768) / (PHI * 1000)]%Q /\
  Forall (fun y => inject_Z (-32768) / step <= y /\
                   y <= inject_Z 32767 / step)%Q
         [inject_Z 32767 / (PHI * 1000); inject_Z (-32768) / (PHI * 1000)]%Q.
Proof.
  split; [reflexivity|].
  apply (decompress_values_are_bounded [xff; x7f; x00; x80] 2). reflexivity.
Defined.

End CodecBlobs.

(** ** The integrity check of the loop *)

Section Integrity.

Import GoldenRatioCompressor Pipeline.

(** The reconstruction of one element. *)
Let rebuilt (x : Q) : Q :=
  (inject_Z (astype_int16 (np_round (x * PHI * 1000))) / (PHI * 1000))%Q.

Lemma decompress_compress_eq (data : list Q) :
  decompress (compress data) (List.length data) = Ok (map rebuilt data).
Proof.
  unfold decompress. rewrite frombuffer_compress. cbn [bind].
  unfold scaled. now rewrite map_map.
Qed.

Lemma close_when_representable (x : Q) :
  representable x ->
  Qle_bool (Qabs (x - rebuilt x))
           ((1 # 1000) + (1 # 100000) * Qabs (rebuilt x)) = true.
Proof.
  intros Hx. apply Qle_bool_iff. unfold rebuilt.
  rewrite (scaled_representable x Hx).
  eapply Qle_trans; [apply dequantize_error|].
  eapply Qle_trans with (y := ((1 # 1000) + 0)%Q); [discriminate|].
  apply Qplus_le_r.
  apply Qmult_le_0_compat; [discriminate | apply Qabs_nonneg].
Qed.

Lemma allclose_cons (x y : Q) (xs ys : list Q) (atol : Q) :
  allclose (x :: xs) (y :: ys) atol =
    Qle_bool (Qabs (x - y)) (atol + (1 # 100000) * Qabs y)
    && allclose xs ys atol.
Proof. reflexivity. Qed.

(** X6.  The loop's integrity assertion holds for every payload inside
    the codec's domain, in particular for the payload in [0, 1) the loop
    draws: the round trip succeeds and [np.allclose(delta, recon,
    atol=1e-3)] is true. *)
Theorem integrity_check_passes_in_domain (data : list Q) :
  Forall representable data ->
  exists recon,
    decompress (compress data) (List.length data) = Ok recon /\
    allclose data recon (1 # 1000) = true.
Proof.
  intros Hdom. rewrite decompress_compress_eq.
  eexists. split; [reflexivity|].
  induction Hdom as [|x xs Hx _ IH]; [reflexivity|].
  cbn [map]. rewrite allclose_cons, IH, close_when_representable by exact Hx.
  reflexivity.
Qed.

Lemma integrity_check_passes_witness :
  Forall representable [0 # 1; 1 # 3; 999 # 1000; -20 # 1]%Q /\
  exists recon,
    decompress (compress [0 # 1; 1 # 3; 999 # 1000; -20 # 1]%Q)
               (List.length [0 # 1; 1 # 3; 999 # 1000; -20 # 1]%Q)
      = Ok recon /\
    allclose [0 # 1; 1 # 3; 999 # 1000; -20 # 1]%Q recon (1 # 1000) = true.
Proof.
  assert (H : Forall representable [0 # 1; 1 # 3; 999 # 1000; -20 # 1]%Q)
    by (repeat constructor; discriminate).
  split; [exact H|].
  apply (integrity_check_passes_in_domain _ H).
Defined.

End Integrity.

(** ** Accounting of the resource manager *)

Section Accounting.

Import ResourceManager.

Lemma first_sensor_skips (empties : list string) (tail : list (string * list Q))
    (m : t) :
  first_sensor (map (fun name => (name, [])) empties ++ tail) m
  = first_sensor tail m.
Proof. induction empties as [|e es IH]; cbn; [reflexivity | exact IH]. Qed.

(** X9.  [update()] reads one value only: sensors without entries are
    skipped, the first entry of the first sensor that has entries is
    accounted and everything after it is ignored; when no sensor has an
    entry the reading is taken to be 35. *)
Theorem update_reads_first_available_entry
    (empties : list string) (name : string) (current : Q) (more : list Q)
    (rest : list (string * list Q)) (m : t) :
  update (SensorsTemperatures
            (Dict (map (fun n => (n, [])) empties ++
                   (name, current :: more) :: rest))) m
  = account current m /\
  update (SensorsTemperatures (Dict (map (fun n => (n, [])) empties))) m
  = account 35 m.
Proof.
  split; cbn [update].
  - rewrite first_sensor_skips. reflexivity.
  - rewrite <- (app_nil_r (map _ empties)), first_sensor_skips. reflexivity.
Qed.

(** X10.  A reading at or below the 30 degree baseline costs nothing:
    when the entry [update()] reads is at most 30, [used] is unchanged. *)
Theorem update_is_free_at_or_below_baseline
    (name : string) (current : Q) (more : list Q)
    (rest : list (string * list Q)) (m : t) :
  (current <= 30)%Q ->
  (used (update (SensorsTemperatures (Dict ((name, current :: more) :: rest)))
                m) == used m)%Q.
Proof.
  intros H. cbn [update first_sensor]. unfold account, py_max; cbn [used].
  unfold TEMP_BASE, L_PER_DEGREE.
  destruct (Qle_bool (current - 30) 0) eqn:E; [lra|].
  exfalso. assert (Hle : (current - 30 <= 0)%Q) by lra.
  apply Qle_bool_iff in Hle. congruence.
Qed.

Lemma update_is_free_witness :
  let m := mk 1 (3 # 10) in
  (25 # 1 <= 30)%Q /\
  (used (update (SensorsTemperatures
                   (Dict [("coretemp"%string, [(25 # 1)%Q; (90 # 1)%Q])])) m)
   == used m)%Q.
Proof.
  intros m. split; [discriminate|].
  apply (update_is_free_at_or_below_baseline
           "coretemp" (25 # 1) [(90 # 1)%Q] [] m).
  discriminate.
Defined.

End Accounting.

(** ** How a run ends *)

Section Runs.

Import Pipeline.

Variable cfg : Config.
Variable env : nat -> tile_env.
Variables out_dir base_url : string.

Let url : string := (base_url ++ "/supersample")%string.
Let body : nat -> prog unit := tile cfg out_dir base_url env.

(** An iteration that raises: which statement raised, and what it left. *)
Lemma tile_raise (idx : nat) (w w' : world) (e : exn) :
  body idx w = (Raise e, w') ->
  (e = ZeroDivisionError /\ w' = w) \/
  (exists uv s1,
     FrameScheduler.next_tile_uv (scheduler w) = Ok (uv, s1) /\
     ((e = AssertionError "Compression integrity failed" /\
       w' = mkWorld s1 (manager w) (trace w)) \/
      (e = RequestException /\
       sampler_ok (env idx) = false /\
       w' = mkWorld s1 (manager w)
              (trace w ++ [ExportTile (fst uv) (snd uv) (tile_path out_dir idx);
                           SupersampleFailed url (tile_path out_dir idx)])) \/
      (exists u l,
         e = RuntimeError u l /\
         w' = mkWorld s1
                (ResourceManager.update (sensors (env idx)) (manager w))
                (trace w ++ tile_events out_dir url idx uv)))).
Proof.
  unfold body, tile, seq_bind, scheduler_next_tile_uv, lift, supersample,
    manager_update, manager_gate, emit, ret.
  destruct (FrameScheduler.next_tile_uv (scheduler w)) as [[uv s1]|e0] eqn:Hn.
  2:{ intros [= <- <-]. left. split; [|reflexivity].
      unfold FrameScheduler.next_tile_uv, FrameScheduler.py_mod,
        FrameScheduler.py_truediv in Hn. cbn in Hn.
      destruct (FrameScheduler.modulus (scheduler w) =? 0);
        cbn in Hn; congruence. }
  right. exists uv, s1. split; [reflexivity|].
  revert H. unfold GoldenRatioCompressor.decompress.
  rewrite frombuffer_compress. cbn [bind].
  destruct (allclose _ _ _).
  2:{ intros [= <- <-]. left. split; reflexivity. }
  right.
  destruct (sampler_ok (env idx)) eqn:Hs; cbn -[ResourceManager.gate] in H.
  2:{ left. injection H as <- <-. rewrite <- app_assoc.
      repeat split; reflexivity. }
  right. unfold ResourceManager.gate in H.
  destruct (Qle_bool _ _); [|discriminate].
  injection H as <- <-. eexists _, _. split; [reflexivity|].
  rewrite <- app_assoc. reflexivity.
Qed.

(** A loop that raises: the iteration that raised and the completed ones
    before it. *)
Lemma for_each_raise (n : nat) :
  forall (first : nat) (w w' : world) (e : exn),
    for_each (seq first n) body w = (Raise e, w') ->
    exists k wk,
      (k < n)%nat /\
      for_each (seq first k) body w = (Ok tt, wk) /\
      body (first + k) wk = (Raise e, w').
Proof.
  induction n as [|n IH]; intros first w w' e; cbn [seq for_each].
  - discriminate.
  - unfold seq_bind at 1.
    destruct (body first w) as [[[]|e0] w1] eqn:Hb.
    + intros Hrest. destruct (IH _ _ _ _ Hrest) as (k & wk & Hk & Hpre & Hr).
      exists (S k), wk. split; [lia|]. split.
      * cbn [seq for_each]. unfold seq_bind at 1. now rewrite Hb.
      * now rewrite <- plus_n_Sm.
    + intros [= <- <-]. exists 0%nat, w. split; [lia|]. split.
      * reflexivity.
      * now rewrite Nat.add_0_r.
Qed.

(** The files of one iteration, however it ends: none, the tile file, or
    the tile file and the final file. *)
Lemma tile_files_of (idx : nat) (w w' : world) (r : result unit) :
  body idx w = (r, w') ->
  exists j,
    (r = Ok tt -> j = 2%nat) /\
    files_written (trace w') =
      files_written (trace w) ++ firstn j (tile_files out_dir idx).
Proof.
  intros Hb. destruct r as [[]|e].
  - destruct (tile_ok _ _ _ _ _ _ _ Hb) as (uv & _ & Ht & _).
    exists 2%nat. split; [reflexivity|].
    rewrite Ht, !files_written_app. cbn. rewrite ?app_nil_r. reflexivity.
  - destruct (tile_raise _ _ _ _ Hb)
      as [[_ ->] | (uv & s1 & _ & [[_ ->] | [(_ & _ & ->) | (u & l & _ & ->)]])];
      cbn [trace].
    + exists 0%nat. split; [discriminate|]. cbn. now rewrite app_nil_r.
    + exists 0%nat. split; [discriminate|]. cbn. now rewrite app_nil_r.
    + exists 1%nat. split; [discriminate|].
      rewrite files_written_app. reflexivity.
    + exists 2%nat. split; [discriminate|].
      rewrite files_written_app. reflexivity.
Qed.

Lemma for_each_files (n : nat) :
  forall (first : nat) (w w' : world) (r : result unit),
    for_each (seq first n) body w = (r, w') ->
    exists j,
      (r = Ok tt -> j = (2 * n)%nat) /\
      files_written (trace w') =
        files_written (trace w) ++
        firstn j (flat_map (tile_files out_dir) (seq first n)).
Proof.
  induction n as [|n IH]; intros first w w' r; cbn [seq for_each].
  - intros [= <- <-]. exists 0%nat. split; [reflexivity|].
    cbn. now rewrite app_nil_r.
  - unfold seq_bind at 1.
    destruct (body first w) as [[[]|e0] w1] eqn:Hb.
    + intros Hrest.
      destruct (tile_files_of _ _ _ _ Hb) as (j0 & Hj0 & Hf0).
      rewrite (Hj0 eq_refl) in Hf0.
      destruct (IH _ _ _ _ Hrest) as (j & Hj & Hf).
      exists (2 + j)%nat. split; [intros E; rewrite (Hj E); lia|].
      rewrite Hf, Hf0, <- app_assoc. reflexivity.
    + intros [= <- <-].
      destruct (tile_files_of _ _ _ _ Hb) as (j0 & _ & Hf0).
      exists (Nat.min j0 2). split; [discriminate|].
      rewrite Hf0. f_equal. cbn [flat_map].
      rewrite firstn_app. cbn [tile_files List.length].
      replace (Nat.min j0 2 - 2)%nat with 0%nat by lia.
      cbn [firstn]. rewrite app_nil_r.
      destruct j0 as [|[|[|j0]]]; reflexivity.
Qed.

(** Iterations that all end normally passed the gate one after the other. *)
Lemma for_each_ok_gates (n : nat) :
  forall (first : nat) (w w' : world),
    for_each (seq first n) body w = (Ok tt, w') ->
    forall k, (k < n)%nat ->
      ResourceManager.gate
        (ResourceManager.updates (map (sensors_at env) (seq first (S k)))
                                 (manager w)) = Ok tt.
Proof.
  induction n as [|n IH]; intros first w w'; cbn [seq for_each].
  - intros _ k Hk. lia.
  - unfold seq_bind at 1.
    destruct (body first w) as [[[]|e0] w1] eqn:Hb; [|discriminate].
    intros Hrest k Hk.
    destruct (tile_ok _ _ _ _ _ _ _ Hb) as (uv & _ & _ & Hm & Hg).
    destruct k as [|k].
    + cbn. unfold sensors_at. now rewrite <- Hm.
    + specialize (IH _ _ _ Hrest k ltac:(lia)).
      rewrite Hm in IH. exact IH.
Qed.

End Runs.

Section RunOutcomes.

Import Pipeline.

Variable cfg : Config.
Variable env : nat -> tile_env.
Variables out_dir raw_url : string.
Variable limit : Q.

Hypothesis Hout : output_dir cfg = Some out_dir.
Hypothesis Hurl : super_sampler_url cfg = Some raw_url.
Hypothesis Hlim : water_limit cfg = Some limit.

Let tiles : nat := Z.to_nat (get (num_tiles cfg) 24%Z).
Let body : nat -> prog unit := tile cfg out_dir (rstrip_slash raw_url) env.
Let w0 : world := start cfg out_dir limit.

Lemma run_with_keys :
  run_pipeline cfg env =
    (fst (for_each (seq 0 tiles) body w0),
     trace (snd (for_each (seq 0 tiles) body w0))).
Proof.
  unfold run_pipeline. rewrite Hout, Hurl, Hlim. cbn [item].
  unfold range. fold tiles body w0.
  now destruct (for_each (seq 0 tiles) body w0).
Qed.

Lemma run_aborts_at (k : nat) (wk wk' : world) (e : exn) :
  (k < tiles)%nat ->
  for_each (seq 0 k) body w0 = (Ok tt, wk) ->
  body k wk = (Raise e, wk') ->
  run_pipeline cfg env = (Raise e, trace wk').
Proof.
  intros Hk Hpre Hb. rewrite run_with_keys.
  replace tiles with (k + S (tiles - S k))%nat by lia.
  rewrite seq_app, for_each_app, Hpre. cbn [seq for_each Nat.add].
  unfold seq_bind. rewrite Hb. reflexivity.
Qed.

Lemma files_of_passed_prefix (k : nat) (wk : world) :
  for_each (seq 0 k) body w0 = (Ok tt, wk) ->
  files_written (trace wk) = flat_map (tile_files out_dir) (seq 0 k).
Proof.
  intros Hpre.
  destruct (for_each_ok _ _ _ _ _ _ _ _ Hpre) as (coords & _ & Hlen & Htr & _).
  rewrite Htr, files_written_app, files_written_passed, Hlen. reflexivity.
Qed.

End RunOutcomes.

Section RunTheorems.

Import Pipeline.

(** X11.  When tiles [0 .. k-1] have passed and the body of tile [k]
    raises, [run_pipeline] ends with that exception and nothing is undone.
    A zero modulus or a failed integrity assertion leaves no file of tile
    [k]; a failed super-sampling request leaves its tile file without the
    final file; in these cases no water is accounted for tile [k].  The
    budget error leaves both files.  Nothing is said here about other
    exceptions. *)
Theorem abort_keeps_what_was_written
    (cfg : Config) (env : nat -> tile_env)
    (out_dir raw_url : string) (limit : Q)
    (k : nat) (wk wk' : world) (e : exn) :
  output_dir cfg = Some out_dir ->
  super_sampler_url cfg = Some raw_url ->
  water_limit cfg = Some limit ->
  (k < List.length (range (get (num_tiles cfg) 24%Z)))%nat ->
  for_each (seq 0 k) (tile cfg out_dir (rstrip_slash raw_url) env)
           (start cfg out_dir limit) = (Ok tt, wk) ->
  tile cfg out_dir (rstrip_slash raw_url) env k wk = (Raise e, wk') ->
  run_pipeline cfg env = (Raise e, trace wk') /\
  match e with
  | ZeroDivisionError | AssertionError _ =>
      files_written (trace wk') = flat_map (tile_files out_dir) (seq 0 k) /\
      manager wk' = manager wk
  | RequestException =>
      files_written (trace wk') =
        flat_map (tile_files out_dir) (seq 0 k) ++ [tile_path out_dir k] /\
      manager wk' = manager wk
  | RuntimeError _ _ =>
      files_written (trace wk') =
        flat_map (tile_files out_dir) (seq 0 k) ++ tile_files out_dir k /\
      manager wk' = ResourceManager.update (sensors (env k)) (manager wk)
  | ValueError _ | KeyError _ => True
  end.
Proof.
  intros Hout Hurl Hlim Hk Hpre Hb.
  unfold range in Hk. rewrite length_seq in Hk.
  split; [eapply run_aborts_at; eassumption|].
  pose proof (files_of_passed_prefix _ _ _ _ _ _ _ Hpre) as Hfiles.
  destruct (tile_raise _ _ _ _ _ _ _ _ Hb)
    as [[-> ->] | (uv & s1 & _ & [[-> ->] | [(-> & _ & ->) | (u & l & -> & ->)]])];
    cbn [trace manager]; rewrite ?files_written_app, ?Hfiles;
    split; reflexivity.
Qed.

Lemma abort_keeps_what_was_written_witness :
  let body := tile outage_cfg "out/" (rstrip_slash "http://sampler")
                   outage_env in
  let w2 := snd (for_each (seq 0 2) body (start outage_cfg "out/" (1 # 1))) in
  let w2' := snd (body 2%nat w2) in
  (2 < List.length (range (get (num_tiles outage_cfg) 24%Z)))%nat /\
  for_each (seq 0 2) body (start outage_cfg "out/" (1 # 1)) = (Ok tt, w2) /\
  body 2%nat w2 = (Raise RequestException, w2') /\
  run_pipeline outage_cfg outage_env = (Raise RequestException, trace w2') /\
  files_written (trace w2') =
    ["out/tile_000.png"; "out/final_000.png";
     "out/tile_001.png"; "out/final_001.png"; "out/tile_002.png"]%string /\
  manager w2' = manager w2.
Proof.
  intros body w2 w2'.
  assert (Hk : (2 < List.length (range (get (num_tiles outage_cfg) 24%Z)))%nat)
    by (vm_compute; lia).
  assert (Hpre : for_each (seq 0 2) body (start outage_cfg "out/" (1 # 1))
                 = (Ok tt, w2)) by (vm_compute; reflexivity).
  assert (Hb : body 2%nat w2 = (Raise RequestException, w2'))
    by (vm_compute; reflexivity).
  destruct (abort_keeps_what_was_written
              outage_cfg outage_env "out/" "http://sampler" (1 # 1)
              2 w2 w2' RequestException eq_refl eq_refl eq_refl Hk Hpre Hb)
    as (Hrun & Hfiles & Hm).
  repeat split; assumption.
Defined.

(** X12.  A completed run did all of its tiles and nothing else: the
    generator was called once per tile, the trace is the directory
    creation followed by export, super-sampling and pacing delay of tiles
    [0 .. n-1] in order, the files written are the [n] file pairs in index
    order, and the gate passed after every tile. *)
Theorem completed_run_did_every_tile
    (cfg : Config) (env : nat -> tile_env)
    (out_dir raw_url : string) (limit : Q) (tr : list event) :
  output_dir cfg = Some out_dir ->
  super_sampler_url cfg = Some raw_url ->
  water_limit cfg = Some limit ->
  run_pipeline cfg env = (Ok tt, tr) ->
  let n := List.length (range (get (num_tiles cfg) 24%Z)) in
  exists coords g,
    FrameScheduler.calls n
      (FrameScheduler.reset
         (FrameScheduler.init (get (fib_modulus cfg) 100000%Z)))
      = Ok (coords, g) /\
    List.length coords = n /\
    tr = Makedirs out_dir ::
         passed_trace out_dir (rstrip_slash raw_url ++ "/supersample")
                      (get (loop_delay cfg) (1 # 10)) 0 coords /\
    files_written tr = flat_map (tile_files out_dir) (seq 0 n) /\
    forall k, (k < n)%nat ->
      ResourceManager.gate
        (ResourceManager.updates (map (sensors_at env) (seq 0 (S k)))
                                 (ResourceManager.init limit)) = Ok tt.
Proof.
  intros Hout Hurl Hlim Hrun. cbv zeta. unfold range. rewrite length_seq.
  rewrite (run_with_keys _ _ _ _ _ Hout Hurl Hlim) in Hrun.
  set (n := Z.to_nat (get (num_tiles cfg) 24%Z)) in *.
  destruct (for_each (seq 0 n) _ _) as [r w] eqn:Hloop.
  cbn [fst snd] in Hrun. injection Hrun as -> <-.
  destruct (for_each_ok _ _ _ _ _ _ _ _ Hloop)
    as (coords & Hc & Hlen & Htr & _).
  exists coords, (scheduler w).
  split; [exact Hc|]. split; [exact Hlen|]. split; [exact Htr|].
  split.
  - exact (files_of_passed_prefix _ _ _ _ _ _ _ Hloop).
  - intros k Hk.
    exact (for_each_ok_gates _ _ _ _ _ _ _ _ Hloop k Hk).
Qed.

Lemma completed_run_witness :
  let tr := snd (run_pipeline outage_cfg steady_env) in
  run_pipeline outage_cfg steady_env = (Ok tt, tr) /\
  exists coords g,
    FrameScheduler.calls 4
      (FrameScheduler.reset
         (FrameScheduler.init (get (fib_modulus outage_cfg) 100000%Z)))
      = Ok (coords, g) /\
    List.length coords = 4%nat /\
    tr = Makedirs "out/" ::
         passed_trace "out/" (rstrip_slash "http://sampler" ++ "/supersample")
                      (get (loop_delay outage_cfg) (1 # 10)) 0 coords /\
    files_written tr = flat_map (tile_files "out/") (seq 0 4) /\
    forall k, (k < 4)%nat ->
      ResourceManager.gate
        (ResourceManager.updates (map (sensors_at steady_env) (seq 0 (S k)))
                                 (ResourceManager.init (1 # 1))) = Ok tt.
Proof.
  intros tr.
  assert (Hrun : run_pipeline outage_cfg steady_env = (Ok tt, tr))
    by (vm_compute; reflexivity).
  split; [exact Hrun|].
  exact (completed_run_did_every_tile outage_cfg steady_env
           "out/" "http://sampler" (1 # 1) tr eq_refl eq_refl eq_refl Hrun).
Defined.

(** X13.  Files appear in the order of the plan and without gaps: however
    the run ends, the files written are an initial part of
    [tile_000, final_000, tile_001, final_001, ...], and all of it when
    the run completes. *)
Theorem files_are_a_prefix_of_the_plan
    (cfg : Config) (env : nat -> tile_env) (out_dir : string)
    (r : result unit) (tr : list event) :
  output_dir cfg = Some out_dir ->
  run_pipeline cfg env = (r, tr) ->
  let plan := flat_map (tile_files out_dir)
                       (range (get (num_tiles cfg) 24%Z)) in
  exists j,
    files_written tr = firstn j plan /\
    (r = Ok tt -> files_written tr = plan).
Proof.
  intros Hout Hrun. cbv zeta.
  destruct (super_sampler_url cfg) as [raw_url|] eqn:Hurl.
  2:{ unfold run_pipeline in Hrun. rewrite Hout, Hurl in Hrun.
      cbn [item] in Hrun. injection Hrun as <- <-.
      exists 0%nat. split; [reflexivity | discriminate]. }
  destruct (water_limit cfg) as [limit|] eqn:Hlim.
  2:{ unfold run_pipeline in Hrun. rewrite Hout, Hurl, Hlim in Hrun.
      cbn [item] in Hrun. injection Hrun as <- <-.
      exists 0%nat. split; [reflexivity | discriminate]. }
  rewrite (run_with_keys _ _ _ _ _ Hout Hurl Hlim) in Hrun.
  unfold range.
  destruct (for_each _ _ _) as [r' w] eqn:Hloop.
  cbn [fst snd] in Hrun. injection Hrun as <- <-.
  destruct (for_each_files _ _ _ _ _ _ _ _ _ Hloop) as (j & Hj & Hf).
  cbn [start trace files_written flat_map app] in Hf.
  exists j. split; [exact Hf|].
  intros ->. exact (files_of_passed_prefix _ _ _ _ _ _ _ Hloop).
Qed.

Lemma files_are_a_prefix_witness :
  exists j,
    files_written (snd (run_pipeline outage_cfg outage_env)) =
      firstn j (flat_map (tile_files "out/")
                         (range (get (num_tiles outage_cfg) 24%Z))) /\
    (fst (run_pipeline outage_cfg outage_env) = Ok tt ->
     files_written (snd (run_pipeline outage_cfg outage_env)) =
       flat_map (tile_files "out/") (range (get (num_tiles outage_cfg) 24%Z))).
Proof.
  apply (files_are_a_prefix_of_the_plan outage_cfg outage_env "out/"
           (fst (run_pipeline outage_cfg outage_env))
           (snd (run_pipeline outage_cfg outage_env)) eq_refl).
  now destruct (run_pipeline outage_cfg outage_env).
Defined.

(** X14.  A [KeyError] of [run_pipeline] names a required key that is
    missing from the configuration, and no file has been written when it
    is raised. *)
Theorem key_error_names_a_missing_key
    (cfg : Config) (env : nat -> tile_env) (key : string) (tr : list event) :
  run_pipeline cfg env = (Raise (KeyError key), tr) ->
  files_written tr = [] /\
  ((key = "output_dir"%string /\ output_dir cfg = None) \/
   (key = "super_sampler_url"%string /\ super_sampler_url cfg = None) \/
   (key = "water_limit"%string /\ water_limit cfg = None)).
Proof.
  intros Hrun.
  destruct (output_dir cfg) as [out_dir|] eqn:Hout.
  2:{ unfold run_pipeline in Hrun. rewrite Hout in Hrun.
      cbn [item] in Hrun. injection Hrun as <- <-. split; auto. }
  destruct (super_sampler_url cfg) as [raw_url|] eqn:Hurl.
  2:{ unfold run_pipeline in Hrun. rewrite Hout, Hurl in Hrun.
      cbn [item] in Hrun. injection Hrun as <- <-. split; auto. }
  destruct (water_limit cfg) as [limit|] eqn:Hlim.
  2:{ unfold run_pipeline in Hrun. rewrite Hout, Hurl, Hlim in Hrun.
      cbn [item] in Hrun. injection Hrun as <- <-. split; auto. }
  exfalso.
  rewrite (run_with_keys _ _ _ _ _ Hout Hurl Hlim) in Hrun.
  destruct (for_each _ _ _) as [r' w] eqn:Hloop.
  cbn [fst snd] in Hrun. injection Hrun as -> <-.
  destruct (for_each_raise _ _ _ _ _ _ _ _ _ Hloop) as (k & wk & _ & _ & Hb).
  destruct (tile_raise _ _ _ _ _ _ _ _ Hb)
    as [[H _] | (uv & s1 & _ & [[H _] | [(H & _) | (u & l & H & _)]])];
    discriminate H.
Qed.

Lemma key_error_witness :
  let cfg := mkConfig (Some "out"%string) (Some "http://sampler"%string)
                      None None None None in
  run_pipeline cfg scenario_env
    = (Raise (KeyError "water_limit"), [Makedirs "out"]) /\
  files_written [Makedirs "out"] = [] /\
  (("water_limit" = "output_dir" /\ output_dir cfg = None) \/
   ("water_limit" = "super_sampler_url" /\ super_sampler_url cfg = None) \/
   ("water_limit" = "water_limit" /\ water_limit cfg = None))%string.
Proof.
  intros cfg.
  assert (Hrun : run_pipeline cfg scenario_env
                 = (Raise (KeyError "water_limit"), [Makedirs "out"]))
    by reflexivity.
  split; [exact Hrun|].
  exact (key_error_names_a_missing_key cfg scenario_env "water_limit"
           [Makedirs "out"] Hrun).
Defined.

Lemma zero_modulus_run
    (cfg : Config) (env : nat -> tile_env)
    (out_dir raw_url : string) (limit : Q) :
  output_dir cfg = Some out_dir ->
  super_sampler_url cfg = Some raw_url ->
  water_limit cfg = Some limit ->
  fib_modulus cfg = Some 0%Z ->
  (0 < List.length (range (get (num_tiles cfg) 24%Z)))%nat ->
  run_pipeline cfg env = (Raise ZeroDivisionError, [Makedirs out_dir]).
Proof.
  intros Hout Hurl Hlim Hmod Hn.
  unfold range in Hn. rewrite length_seq in Hn.
  apply (run_aborts_at _ _ _ _ _ Hout Hurl Hlim 0
           (start cfg out_dir limit) (start cfg out_dir limit));
    [exact Hn | reflexivity |].
  unfold tile, seq_bind, scheduler_next_tile_uv, start.
  rewrite Hmod. reflexivity.
Qed.

(** X15.  A modulus of zero does no tile work: with [fib_modulus = 0]
    and at least one tile to do, [run_pipeline] never returns normally and
    writes no file, whatever else the configuration holds. *)
Theorem zero_modulus_does_no_tile_work
    (cfg : Config) (env : nat -> tile_env) :
  fib_modulus cfg = Some 0%Z ->
  (0 < List.length (range (get (num_tiles cfg) 24%Z)))%nat ->
  fst (run_pipeline cfg env) <> Ok tt /\
  files_written (snd (run_pipeline cfg env)) = [].
Proof.
  intros Hmod Hn.
  destruct (output_dir cfg) as [out_dir|] eqn:Hout.
  2:{ unfold run_pipeline. rewrite Hout. cbn. split; [discriminate|reflexivity]. }
  destruct (super_sampler_url cfg) as [raw_url|] eqn:Hurl.
  2:{ unfold run_pipeline. rewrite Hout, Hurl. cbn.
      split; [discriminate|reflexivity]. }
  destruct (water_limit cfg) as [limit|] eqn:Hlim.
  2:{ unfold run_pipeline. rewrite Hout, Hurl, Hlim. cbn.
      split; [discriminate|reflexivity]. }
  rewrite (zero_modulus_run cfg env _ _ _ Hout Hurl Hlim Hmod Hn). cbn.
  split; [discriminate|reflexivity].
Qed.

Lemma zero_modulus_witness :
  let cfg := mkConfig (Some "out"%string) (Some "http://sampler"%string)
                      (Some (1 # 1)) (Some 0%Z) None None in
  (0 < List.length (range (get (num_tiles cfg) 24%Z)))%nat /\
  fst (run_pipeline cfg scenario_env) <> Ok tt /\
  files_written (snd (run_pipeline cfg scenario_env)) = [].
Proof.
  intros cfg.
  assert (Hn : (0 < List.length (range (get (num_tiles cfg) 24%Z)))%nat)
    by (vm_compute; lia).
  split; [exact Hn|].
  exact (zero_modulus_does_no_tile_work cfg scenario_env eq_refl Hn).
Defined.

End RunTheorems.

(** ** Addresses and file names *)

Section Names.

Import Pipeline.

Local Open Scope string_scope.

Lemma rstrip_slash_slashes (k : nat) : rstrip_slash (slashes k) = "".
Proof. induction k as [|k IH]; cbn; [reflexivity | now rewrite IH]. Qed.

Lemma rstrip_slash_trailing (s : string) (k : nat) :
  rstrip_slash (s ++ slashes k) = rstrip_slash s.
Proof.
  induction s as [|c rest IH]; cbn [append rstrip_slash].
  - apply rstrip_slash_slashes.
  - now rewrite IH.
Qed.

(** X17.  Trailing slashes of [super_sampler_url] do not matter: a
    configuration whose address has any number of slashes appended gives
    the same run, with the same request address. *)
Theorem trailing_slashes_of_sampler_url_do_not_matter
    (cfg : Config) (env : nat -> tile_env) (address : string) (k : nat) :
  run_pipeline (with_sampler_url cfg (address ++ slashes k)) env
  = run_pipeline (with_sampler_url cfg address) env.
Proof.
  unfold run_pipeline, with_sampler_url; cbn [output_dir super_sampler_url
    water_limit fib_modulus num_tiles loop_delay item].
  destruct (output_dir cfg) as [out_dir|]; [|reflexivity].
  destruct (water_limit cfg) as [limit|]; cbn [item]; [|reflexivity].
  rewrite rstrip_slash_trailing. reflexivity.
Qed.

Lemma zeros_digits (k : nat) (d : Decimal.uint) :
  zeros k ++ NilEmpty.string_of_uint d
  = NilEmpty.string_of_uint (Nat.iter k Decimal.D0 d).
Proof. induction k as [|k IH]; cbn; [reflexivity | now rewrite IH]. Qed.

Lemma of_uint_leading_zeros (k : nat) (d : Decimal.uint) :
  Nat.of_uint (Nat.iter k Decimal.D0 d) = Nat.of_uint d.
Proof. induction k as [|k IH]; cbn [Nat.iter]; [reflexivity | exact IH]. Qed.

(** Reading back the number a tile index was formatted to. *)
Lemma format_03d_read (idx : nat) :
  option_map Nat.of_uint (NilEmpty.uint_of_string (format_03d idx)) = Some idx.
Proof.
  unfold format_03d. rewrite zeros_digits, NilEmpty.usu. cbn [option_map].
  now rewrite of_uint_leading_zeros, DecimalNat.Unsigned.of_to.
Qed.

Lemma format_03d_inj (i j : nat) : format_03d i = format_03d j -> i = j.
Proof.
  intros H. pose proof (format_03d_read i) as Hi.
  rewrite H, format_03d_read in Hi. now injection Hi.
Qed.

Lemma length_append (a b : string) :
  String.length (a ++ b) = (String.length a + String.length b)%nat.
Proof. induction a as [|c a IH]; cbn; [reflexivity | now rewrite IH]. Qed.

Lemma append_inv_head (p a b : string) : p ++ a = p ++ b -> a = b.
Proof.
  induction p as [|c p IH]; cbn; intros H; [exact H|].
  injection H as H. now apply IH.
Qed.

Lemma append_inv_tail (s : string) :
  forall a b, a ++ s = b ++ s -> a = b.
Proof.
  induction a as [|c a IH]; intros [|c' b] H; cbn in H.
  - reflexivity.
  - apply (f_equal String.length) in H. cbn in H.
    rewrite length_append in H. lia.
  - apply (f_equal String.length) in H. cbn in H.
    rewrite length_append in H. lia.
  - injection H as -> H. f_equal. now apply IH.
Qed.

Lemma path_join_inv (dir a b : string) :
  path_join dir a = path_join dir b -> a = b.
Proof.
  unfold path_join.
  destruct (String.eqb dir ""); [trivial|].
  destruct (ends_with_slash dir); intros H; apply append_inv_head in H.
  - exact H.
  - now injection H.
Qed.

Lemma tile_path_inj (dir : string) (i j : nat) :
  tile_path dir i = tile_path dir j -> i = j.
Proof.
  unfold tile_path. intros H. apply path_join_inv in H.
  apply (append_inv_head "tile_") in H.
  apply append_inv_tail in H. now apply format_03d_inj.
Qed.

Lemma final_path_inj (dir : string) (i j : nat) :
  final_path dir i = final_path dir j -> i = j.
Proof.
  unfold final_path. intros H. apply path_join_inv in H.
  apply (append_inv_head "final_") in H.
  apply append_inv_tail in H. now apply format_03d_inj.
Qed.

Lemma tile_path_not_final (dir : string) (i j : nat) :
  tile_path dir i <> final_path dir j.
Proof.
  unfold tile_path, final_path. intros H. apply path_join_inv in H.
  discriminate H.
Qed.

Lemma in_planned_files (dir : string) (path : string) (idxs : list nat) :
  In path (flat_map (tile_files dir) idxs) ->
  exists i, In i idxs /\ (path = tile_path dir i \/ path = final_path dir i).
Proof.
  intros H. apply in_flat_map in H. destruct H as (i & Hi & Hp).
  exists i. split; [exact Hi|].
  cbn in Hp. destruct Hp as [<- | [<- | []]]; auto.
Qed.

(** X18.  No two files of a run share a name: the tile and final paths of
    the tiles [0 .. n-1] are pairwise distinct, for every output directory
    and also beyond the three digits of the index format. *)
Theorem output_paths_are_distinct (dir : string) (n : nat) :
  NoDup (flat_map (tile_files dir) (seq 0 n)).
Proof.
  pose proof (seq_NoDup n 0) as Hnd.
  induction Hnd as [|i idxs Hin _ IH]; cbn [flat_map]; [constructor|].
  cbn [tile_files app]. constructor; [|constructor; [|exact IH]].
  - intros [H | H].
    + symmetry in H. exact (tile_path_not_final _ _ _ H).
    + apply in_planned_files in H. destruct H as (j & Hj & [H | H]).
      * apply tile_path_inj in H. subst j. contradiction.
      * exact (tile_path_not_final _ _ _ H).
  - intros H. apply in_planned_files in H. destruct H as (j & Hj & [H | H]).
    + symmetry in H. exact (tile_path_not_final _ _ _ H).
    + apply final_path_inj in H. subst j. contradiction.
Qed.

End Names.

(** * The code on floating point *)

(** ** Rounding *)

Section Rounding.

Import Binary.

Lemma pow2_pos (k : Z) : (0 < 2 ^ k)%Q.
Proof. apply Qpower_0_lt. reflexivity. Qed.

Lemma pow2_nonneg_Z (k : Z) : 0 <= k -> (2 ^ k == inject_Z (2 ^ k))%Q.
Proof. intros H. now rewrite Zpower_Qpower. Qed.

Lemma pow2_succ (k : Z) : (2 ^ (k + 1) == 2 * 2 ^ k)%Q.
Proof.
  rewrite Qpower_plus by discriminate. change (2 ^ 1)%Q with 2%Q. ring.
Qed.

Lemma pow2_le (a b : Z) : a <= b -> (2 ^ a <= 2 ^ b)%Q.
Proof. intros H. apply Qpower_le_compat_l; [exact H | discriminate]. Qed.

Lemma pow2_le_inv (a b : Z) : (2 ^ a <= 2 ^ b)%Q -> a <= b.
Proof. intros H. eapply Qpower_le_compat_l_inv; [exact H | reflexivity]. Qed.

Lemma pow2_lt_inv (a b : Z) : (2 ^ a < 2 ^ b)%Q -> a < b.
Proof. intros H. eapply Qpower_lt_compat_l_inv; [exact H | reflexivity]. Qed.

Lemma ilog2_le (q : Q) : (0 < q)%Q -> (2 ^ ilog2 q <= q)%Q.
Proof.
  intros Hq. unfold ilog2.
  destruct (Qle_bool _ q) eqn:E; [now apply Qle_bool_iff|].
  destruct q as [n d]. cbn [Qnum Qden] in *.
  assert (Hn : 0 < n) by (unfold Qlt in Hq; cbn in Hq; lia).
  pose proof (Z.log2_spec n Hn) as [Hn1 _].
  pose proof (Z.log2_spec (Z.pos d) ltac:(lia)) as [_ Hd2].
  pose proof (Z.log2_nonneg n) as Hln.
  pose proof (Z.log2_nonneg (Z.pos d)) as Hld.
  replace (Z.log2 n - Z.log2 (Z.pos d) - 1)
    with (Z.log2 n - Z.succ (Z.log2 (Z.pos d))) by lia.
  rewrite Qpower_minus by discriminate.
  rewrite !pow2_nonneg_Z by lia.
  apply Qle_shift_div_r.
  - change 0%Q with (inject_Z 0). rewrite <- Zlt_Qlt. lia.
  - unfold Qle, Qmult, inject_Z; cbn [Qnum Qden].
    rewrite !Z.mul_1_r, Pos.mul_1_r. nia.
Qed.

Lemma np_round_le (q : Q) (hi : Z) :
  (q <= inject_Z hi)%Q -> GoldenRatioCompressor.np_round q <= hi.
Proof.
  pose proof (np_round_spec q) as H. cbv zeta in H.
  destruct q as [n d]. cbn [Qnum Qden] in H.
  unfold Qle, inject_Z; cbn [Qnum Qden]. intros Hhi. nia.
Qed.

Lemma np_round_ge (q : Q) (lo : Z) :
  (inject_Z lo <= q)%Q -> lo <= GoldenRatioCompressor.np_round q.
Proof.
  pose proof (np_round_spec q) as H. cbv zeta in H.
  destruct q as [n d]. cbn [Qnum Qden] in H.
  unfold Qle, inject_Z; cbn [Qnum Qden]. intros Hlo. nia.
Qed.

(** The unit in the last place that [round_to] uses for [q]. *)
Let ulp_exp (prec emin : Z) (q : Q) : Z :=
  Z.max (ilog2 (Qabs q) - prec + 1) emin.

Lemma round_to_nonzero (prec emin : Z) (q : Q) :
  ~ (q == 0)%Q ->
  round_to prec emin q =
    (inject_Z (GoldenRatioCompressor.np_round (q / 2 ^ ulp_exp prec emin q))
     * 2 ^ ulp_exp prec emin q)%Q.
Proof.
  intros Hq. unfold round_to.
  destruct (Qeq_bool q 0) eqn:E; [|reflexivity].
  apply Qeq_bool_iff in E. contradiction.
Qed.

Lemma round_to_zero (prec emin : Z) (q : Q) :
  (q == 0)%Q -> round_to prec emin q = 0%Q.
Proof.
  intros Hq. unfold round_to. apply Qeq_bool_iff in Hq. now rewrite Hq.
Qed.

(** Rounding stays on the right side of every value of the grid. *)
Lemma round_to_le_grid (prec emin : Z) (q : Q) (z : Z) :
  ~ (q == 0)%Q ->
  (q <= inject_Z z * 2 ^ ulp_exp prec emin q)%Q ->
  (round_to prec emin q <= inject_Z z * 2 ^ ulp_exp prec emin q)%Q.
Proof.
  intros Hq Hle. rewrite round_to_nonzero by exact Hq.
  pose proof (pow2_pos (ulp_exp prec emin q)) as Hp.
  apply Qmult_le_compat_r; [|apply Qlt_le_weak, Hp].
  rewrite <- Zle_Qle. apply np_round_le.
  apply Qle_shift_div_r; assumption.
Qed.

Lemma round_to_ge_grid (prec emin : Z) (q : Q) (z : Z) :
  ~ (q == 0)%Q ->
  (inject_Z z * 2 ^ ulp_exp prec emin q <= q)%Q ->
  (inject_Z z * 2 ^ ulp_exp prec emin q <= round_to prec emin q)%Q.
Proof.
  intros Hq Hle. rewrite round_to_nonzero by exact Hq.
  pose proof (pow2_pos (ulp_exp prec emin q)) as Hp.
  apply Qmult_le_compat_r; [|apply Qlt_le_weak, Hp].
  rewrite <- Zle_Qle. apply np_round_ge.
  apply Qle_shift_div_l; assumption.
Qed.

(** The rounding error against the magnitude of the value. *)
Lemma round_to_error (prec emin : Z) (q : Q) (k : Z) :
  (Qabs q <= 2 ^ k)%Q -> emin <= k - prec + 1 ->
  (Qabs (round_to prec emin q - q) <= 2 ^ (k - prec))%Q.
Proof.
  intros Hk Hemin.
  destruct (Qeq_dec q 0) as [Hz|Hnz].
  - rewrite (round_to_zero _ _ _ Hz).
    setoid_replace (0 - q)%Q with 0%Q by (rewrite Hz; ring).
    apply Qlt_le_weak, pow2_pos.
  - rewrite round_to_nonzero by exact Hnz.
    assert (Hpos : (0 < Qabs q)%Q).
    { destruct (Qlt_le_dec 0 (Qabs q)) as [H|H]; [exact H|].
      exfalso. apply Hnz. apply Qabs_Qle_condition in H.
      apply Qle_antisym; lra. }
    pose proof (ilog2_le _ Hpos) as He.
    assert (Hek : ilog2 (Qabs q) <= k)
      by (apply pow2_le_inv; eapply Qle_trans; eassumption).
    assert (Hex : ulp_exp prec emin q <= k - prec + 1)
      by (unfold ulp_exp; lia).
    set (ex := ulp_exp prec emin q) in *.
    pose proof (pow2_pos ex) as Hp.
    pose proof (np_round_error (q / 2 ^ ex)) as Herr.
    set (r := inject_Z (GoldenRatioCompressor.np_round (q / 2 ^ ex))) in *.
    assert (E : (r * 2 ^ ex - q == - (q / 2 ^ ex - r) * 2 ^ ex)%Q).
    { field. intros H0. rewrite H0 in Hp. discriminate Hp. }
    rewrite E, Qabs_Qmult, Qabs_opp, (Qabs_pos (2 ^ ex))
      by (apply Qlt_le_weak, Hp).
    apply Qle_trans with (y := ((1 # 2) * 2 ^ ex)%Q).
    + apply Qmult_le_compat_r; [exact Herr | apply Qlt_le_weak, Hp].
    + apply Qle_trans with (y := ((1 # 2) * 2 ^ (k - prec + 1))%Q).
      * apply Qmult_le_l; [reflexivity | now apply pow2_le].
      * rewrite pow2_succ. apply Qle_lteq. right. ring.
Qed.

Lemma round_to_le (prec emin : Z) (q : Q) (z ex : Z) :
  ~ (q == 0)%Q ->
  ex = Z.max (ilog2 (Qabs q) - prec + 1) emin ->
  (q <= inject_Z z * 2 ^ ex)%Q ->
  (round_to prec emin q <= inject_Z z * 2 ^ ex)%Q.
Proof. intros Hq ->. now apply round_to_le_grid. Qed.

Lemma round_to_ge (prec emin : Z) (q : Q) (z ex : Z) :
  ~ (q == 0)%Q ->
  ex = Z.max (ilog2 (Qabs q) - prec + 1) emin ->
  (inject_Z z * 2 ^ ex <= q)%Q ->
  (inject_Z z * 2 ^ ex <= round_to prec emin q)%Q.
Proof. intros Hq ->. now apply round_to_ge_grid. Qed.

End Rounding.

(** ** The generator on doubles *)

Section RoundedScheduler.

Import Binary.

Lemma Qabs_of_nonneg (q : Q) : (0 <= q)%Q -> Qabs q = q.
Proof.
  destruct q as [n d]. unfold Qle; cbn. intros H.
  rewrite Z.mul_1_r in H. now rewrite Z.abs_eq.
Qed.

Lemma pow2_cancel (k : Z) : 0 <= k -> (inject_Z (2 ^ k) * 2 ^ (- k) == 1)%Q.
Proof.
  intros Hk. rewrite <- pow2_nonneg_Z by exact Hk.
  rewrite <- Qpower_plus by discriminate.
  now replace (k + - k) with 0 by lia.
Qed.

(** The unit in the last place of a double between zero and one. *)
Lemma ulp_below_one (q : Q) :
  (0 < q)%Q -> (q < 1)%Q ->
  -1074 <= Z.max (ilog2 (Qabs q) - 53 + 1) (-1074) <= -53.
Proof.
  intros H0 H1. rewrite Qabs_of_nonneg by (apply Qlt_le_weak, H0).
  pose proof (ilog2_le q H0) as He.
  assert (Hlt : ilog2 q < 0).
  { apply pow2_lt_inv. eapply Qle_lt_trans; [exact He | exact H1]. }
  lia.
Qed.

Lemma binary64_unit (q : Q) :
  (0 <= q)%Q -> (q < 1)%Q -> in_closed_unit_interval (binary64 q).
Proof.
  intros H0 H1. unfold in_closed_unit_interval, binary64.
  destruct (Qeq_dec q 0) as [Hz|Hnz].
  - rewrite (round_to_zero _ _ _ Hz). split; discriminate.
  - assert (Hpos : (0 < q)%Q).
    { apply Qle_lteq in H0. destruct H0 as [H|H]; [exact H|].
      exfalso. apply Hnz. now symmetry. }
    pose proof (ulp_below_one q Hpos H1) as Hex.
    set (ex := Z.max (ilog2 (Qabs q) - 53 + 1) (-1074)) in *.
    pose proof (pow2_cancel (- ex) ltac:(lia)) as Hc.
    rewrite Z.opp_involutive in Hc.
    split.
    + apply Qle_trans with (y := (inject_Z 0 * 2 ^ ex)%Q).
      * rewrite Qmult_0_l. apply Qle_refl.
      * apply round_to_ge; [exact Hnz | reflexivity |].
        rewrite Qmult_0_l. exact H0.
    + apply Qle_trans with (y := (inject_Z (2 ^ (- ex)) * 2 ^ ex)%Q).
      * apply round_to_le; [exact Hnz | reflexivity |].
        rewrite Hc. apply Qlt_le_weak, H1.
      * rewrite Hc. apply Qle_refl.
Qed.

Lemma binary64_below_one (q : Q) :
  (0 <= q)%Q -> (q <= 1 - 2 ^ (-53))%Q -> (binary64 q < 1)%Q.
Proof.
  intros H0 H1. unfold binary64.
  destruct (Qeq_dec q 0) as [Hz|Hnz].
  - rewrite (round_to_zero _ _ _ Hz). reflexivity.
  - assert (Hpos : (0 < q)%Q).
    { apply Qle_lteq in H0. destruct H0 as [H|H]; [exact H|].
      exfalso. apply Hnz. now symmetry. }
    assert (Hq1 : (q < 1)%Q).
    { eapply Qle_lt_trans; [exact H1|]. reflexivity. }
    pose proof (ulp_below_one q Hpos Hq1) as Hex.
    set (ex := Z.max (ilog2 (Qabs q) - 53 + 1) (-1074)) in *.
    pose proof (pow2_cancel (- ex) ltac:(lia)) as Hc.
    rewrite Z.opp_involutive in Hc.
    assert (Hc' : (inject_Z (2 ^ (- ex - 53)) * 2 ^ ex == 2 ^ (-53))%Q).
    { rewrite <- pow2_nonneg_Z by lia.
      rewrite <- Qpower_plus by discriminate.
      now replace (- ex - 53 + ex) with (-53) by lia. }
    assert (Hg : (inject_Z (2 ^ (- ex) - 2 ^ (- ex - 53)) * 2 ^ ex
                  == 1 - 2 ^ (-53))%Q).
    { unfold Z.sub at 1. rewrite inject_Z_plus, inject_Z_opp.
      rewrite Qmult_plus_distr_l, Hc.
      setoid_replace (- inject_Z (2 ^ (- ex - 53)) * 2 ^ ex)%Q
        with (- (inject_Z (2 ^ (- ex - 53)) * 2 ^ ex))%Q by ring.
      rewrite Hc'. reflexivity. }
    apply Qle_lt_trans
      with (y := (inject_Z (2 ^ (- ex) - 2 ^ (- ex - 53)) * 2 ^ ex)%Q).
    + apply round_to_le; [exact Hnz | reflexivity |]. rewrite Hg. exact H1.
    + rewrite Hg. reflexivity.
Qed.

Lemma rounded_next_tile_uv_eq (s : FrameScheduler.t) :
  FrameScheduler.modulus s <> 0 ->
  Rounded.FrameScheduler.next_tile_uv s =
    Ok ((binary64 (coord (FrameScheduler.cur s) (FrameScheduler.modulus s)),
         binary64 (coord ((FrameScheduler.prev s + FrameScheduler.cur s)
                          mod FrameScheduler.modulus s)
                         (FrameScheduler.modulus s))),
        FrameScheduler.mk (FrameScheduler.cur s)
          ((FrameScheduler.prev s + FrameScheduler.cur s)
           mod FrameScheduler.modulus s)
          (FrameScheduler.modulus s)).
Proof.
  intros Hm.
  unfold Rounded.FrameScheduler.next_tile_uv, FrameScheduler.py_mod,
    Rounded.FrameScheduler.py_truediv, coord; cbn.
  apply Z.eqb_neq in Hm. now rewrite Hm.
Qed.

Lemma coord_below_one (a m : Z) :
  0 < m -> m <= 2 ^ 53 -> (coord a m <= 1 - 2 ^ (-53))%Q.
Proof.
  intros Hm Hm53. unfold coord.
  pose proof (Z.mod_pos_bound a m Hm) as [_ Hhi].
  assert (Hq : (0 < inject_Z m)%Q) by (unfold Qlt; cbn; lia).
  apply Qle_shift_div_r; [exact Hq|].
  assert (H1 : (inject_Z (a mod m) <= inject_Z m - 1)%Q).
  { change 1%Q with (inject_Z 1). unfold Qminus.
    rewrite <- inject_Z_opp, <- inject_Z_plus, <- Zle_Qle. lia. }
  assert (H2 : (inject_Z m <= inject_Z (2 ^ 53))%Q)
    by (rewrite <- Zle_Qle; exact Hm53).
  change (inject_Z (2 ^ 53)) with (9007199254740992 # 1)%Q in H2.
  change (2 ^ (-53))%Q with (1 # 9007199254740992)%Q.
  lra.
Qed.

Lemma rounded_coord_closed (a m : Z) :
  0 < m -> in_closed_unit_interval (binary64 (coord a m)).
Proof.
  intros Hm. destruct (coord_in_unit_interval a m Hm) as [H0 H1].
  now apply binary64_unit.
Qed.

Lemma rounded_coord_open (a m : Z) :
  0 < m -> m <= 2 ^ 53 -> in_unit_interval (binary64 (coord a m)).
Proof.
  intros Hm Hm53. destruct (coord_in_unit_interval a m Hm) as [H0 H1].
  split.
  - apply (binary64_unit _ H0 H1).
  - apply binary64_below_one; [exact H0 | now apply coord_below_one].
Qed.

(** C5, as stated, fails: with the modulus 23416728348467686 the
    generator returns [v = 1.0] at call 79 after a reset. *)
Lemma coordinate_one_is_emitted :
  2 <= 23416728348467686 /\
  exists coords g' uv,
    Rounded.FrameScheduler.calls 79
      (FrameScheduler.reset (FrameScheduler.init 23416728348467686))
      = Ok (coords, g') /\
    nth_error coords 78 = Some uv /\
    (snd uv == 1)%Q /\ ~ in_unit_interval (snd uv).
Proof.
  split; [lia|]. eexists _, _, _.
  split; [vm_compute; reflexivity|].
  split; [reflexivity|].
  split; [reflexivity|].
  intros [_ H]. vm_compute in H. discriminate H.
Qed.

(** C5, amended.  For every modulus [M >= 2] and every number of calls,
    from whatever state the generator is in, both components of every
    coordinate returned lie in the closed interval [0, 1]; they lie in
    [0, 1) whenever [M <= 2^53]. *)
Theorem emitted_coordinates_in_closed_unit_square
    (g : FrameScheduler.t) (n : nat) :
  2 <= FrameScheduler.modulus g ->
  exists coords g',
    Rounded.FrameScheduler.calls n g = Ok (coords, g') /\
    List.length coords = n /\
    Forall in_closed_unit_square coords /\
    (FrameScheduler.modulus g <= 2 ^ 53 -> Forall in_unit_square coords).
Proof.
  revert g. induction n as [|n IH]; intros g HM.
  - exists [], g. cbn. repeat split; constructor.
  - cbn [Rounded.FrameScheduler.calls].
    rewrite rounded_next_tile_uv_eq by lia. cbn [bind fst snd].
    set (g1 := FrameScheduler.mk _ _ _).
    destruct (IH g1 HM) as (coords & g' & Hc & Hlen & Hcl & Hop).
    rewrite Hc. cbn [bind fst snd].
    eexists _, g'. split; [reflexivity|].
    split; [cbn; now rewrite Hlen|].
    split.
    + constructor; [|exact Hcl].
      split; cbn [fst snd]; apply rounded_coord_closed; lia.
    + intros H53. constructor; [|exact (Hop H53)].
      split; cbn [fst snd]; apply rounded_coord_open; lia.
Qed.

Lemma emitted_coordinates_closed_witness :
  2 <= FrameScheduler.modulus (FrameScheduler.mk 97 98 100) /\
  exists coords g',
    Rounded.FrameScheduler.calls 4 (FrameScheduler.mk 97 98 100)
      = Ok (coords, g') /\
    List.length coords = 4%nat /\
    Forall in_closed_unit_square coords /\
    (FrameScheduler.modulus (FrameScheduler.mk 97 98 100) <= 2 ^ 53 ->
     Forall in_unit_square coords).
Proof.
  split; [cbn; lia|].
  apply (emitted_coordinates_in_closed_unit_square
           (FrameScheduler.mk 97 98 100) 4).
  cbn; lia.
Defined.

End RoundedScheduler.

(** ** The codec on float32 *)

Section RoundedCodec.

Import Binary.
Import Rounded.GoldenRatioCompressor.

Lemma phi32_eq : phi32 = (13573053 # 8388608)%Q.
Proof. vm_compute. reflexivity. Qed.

Lemma scale32_eq : scale32 = (13254934 # 8192)%Q.
Proof. vm_compute. reflexivity. Qed.

Lemma rounded_astype_int16_range (z : Z) : int16 (astype_int16 z).
Proof.
  unfold astype_int16.
  destruct ((- 2 ^ 31 <=? z) && (z <? 2 ^ 31)).
  - apply astype_int16_range.
  - unfold int16. lia.
Qed.

Lemma rounded_astype_int16_id (z : Z) : int16 z -> astype_int16 z = z.
Proof.
  intros H. unfold astype_int16.
  destruct (Z.leb_spec (- 2 ^ 31) z); destruct (Z.ltb_spec z (2 ^ 31));
    cbn [andb]; try (now apply astype_int16_id); unfold int16 in H; lia.
Qed.

Lemma rounded_scaled_int16 (data : list Q) : Forall int16 (scaled data).
Proof.
  unfold scaled. apply Forall_map, Forall_forall. intros x _.
  apply rounded_astype_int16_range.
Qed.

Lemma rounded_frombuffer_compress (data : list Q) :
  GoldenRatioCompressor.frombuffer (compress data) (List.length data)
  = Ok (scaled data).
Proof.
  unfold GoldenRatioCompressor.frombuffer, compress.
  assert (Hlen : List.length (scaled data) = List.length data)
    by apply length_map.
  rewrite length_tobytes, Hlen, Nat.ltb_irrefl.
  rewrite <- Hlen, <- (app_nil_r (GoldenRatioCompressor.tobytes _)).
  now rewrite read_int16_tobytes by apply rounded_scaled_int16.
Qed.

(** One element of the domain through both directions. *)
Lemma rounded_element (x : Q) :
  representable x ->
  int16 (rounded_scaled x) /\
  (Qabs (x - binary32 (inject_Z (rounded_scaled x) / scale32))
   <= (1 # 2) / (GoldenRatioCompressor.PHI * 1000) + (1 # 100000))%Q.
Proof.
  intros [Hlo Hhi]. unfold rounded_scaled.
  rewrite phi32_eq, scale32_eq. unfold binary32.
  unfold GoldenRatioCompressor.PHI in *.
  set (a := (x * (13573053 # 8388608))%Q).
  assert (Ha : (Qabs a <= 2 ^ 6)%Q).
  { apply Qabs_Qle_condition. unfold a.
    change (2 ^ 6)%Q with (64 # 1)%Q. split; lra. }
  pose proof (round_to_error 24 (-149) a 6 Ha ltac:(lia)) as E1.
  change (2 ^ (6 - 24))%Q with (1 # 262144)%Q in E1.
  apply Qabs_Qle_condition in E1. destruct E1 as [E1a E1b].
  set (p1 := round_to 24 (-149) a) in *.
  assert (Hb : (Qabs (p1 * 1000) <= 2 ^ 16)%Q).
  { apply Qabs_Qle_condition. unfold a in *.
    change (2 ^ 16)%Q with (65536 # 1)%Q. split; lra. }
  pose proof (round_to_error 24 (-149) (p1 * 1000) 16 Hb ltac:(lia)) as E2.
  change (2 ^ (16 - 24))%Q with (1 # 256)%Q in E2.
  apply Qabs_Qle_condition in E2. destruct E2 as [E2a E2b].
  set (p2 := round_to 24 (-149) (p1 * 1000)) in *.
  pose proof (np_round_error p2) as E3.
  apply Qabs_Qle_condition in E3. destruct E3 as [E3a E3b].
  set (r := GoldenRatioCompressor.np_round p2) in *.
  assert (Hr : int16 r).
  { unfold int16. split.
    - destruct (Z_le_gt_dec (-32768) r) as [H|H]; [exact H | exfalso].
      assert (Hq : (inject_Z r <= - (32769 # 1))%Q).
      { change (- (32769 # 1))%Q with (inject_Z (-32769)).
        rewrite <- Zle_Qle. lia. }
      unfold a in *. lra.
    - destruct (Z_le_gt_dec r 32767) as [H|H]; [exact H | exfalso].
      assert (Hq : (32768 # 1 <= inject_Z r)%Q).
      { change (32768 # 1)%Q with (inject_Z 32768).
        rewrite <- Zle_Qle. lia. }
      unfold a in *. lra. }
  split; [exact Hr|].
  set (z := (inject_Z r / (13254934 # 8192))%Q).
  assert (Hz : (z * (13254934 # 8192) == inject_Z r)%Q).
  { unfold z. field. }
  assert (Hr1 : (- (32768 # 1) <= inject_Z r)%Q).
  { change (- (32768 # 1))%Q with (inject_Z (-32768)).
    rewrite <- Zle_Qle. apply Hr. }
  assert (Hr2 : (inject_Z r <= 32767 # 1)%Q).
  { change (32767 # 1)%Q with (inject_Z 32767).
    rewrite <- Zle_Qle. apply Hr. }
  assert (Hzb : (Qabs z <= 2 ^ 5)%Q).
  { apply Qabs_Qle_condition. change (2 ^ 5)%Q with (32 # 1)%Q.
    split; lra. }
  pose proof (round_to_error 24 (-149) z 5 Hzb ltac:(lia)) as E4.
  change (2 ^ (5 - 24))%Q with (1 # 524288)%Q in E4.
  apply Qabs_Qle_condition in E4. destruct E4 as [E4a E4b].
  set (y := round_to 24 (-149) z) in *.
  assert (Hs : ((1 # 2) / ((910872158600853 # 562949953421312) * 1000)
                == 281474976710656 # 910872158600853000)%Q) by reflexivity.
  rewrite Hs. apply Qabs_Qle_condition.
  unfold a in *. clearbody p1 p2 r z y. split; lra.
Qed.

Lemma rounded_decompress_compress (data : list Q) :
  decompress (compress data) (List.length data)
  = Ok (map (fun x => binary32
                        (inject_Z (astype_int16 (rounded_scaled x)) / scale32))
            data).
Proof.
  unfold decompress. rewrite rounded_frombuffer_compress. cbn [bind].
  unfold scaled. now rewrite map_map.
Qed.

(** C2, as stated, fails: 12389/16384 is a [float32] inside the domain
    whose reconstruction is off by more than [0.5 / (PHI * 1000)]. *)
Lemma roundtrip_exceeds_half_step :
  representable (12389 # 16384) /\
  (binary32 (12389 # 16384) == 12389 # 16384)%Q /\
  exists y,
    decompress (compress [12389 # 16384]%Q) 1 = Ok [y] /\
    ((1 # 2) / (GoldenRatioCompressor.PHI * 1000)
     < Qabs ((12389 # 16384) - y))%Q.
Proof.
  split; [split; discriminate|].
  split; [vm_compute; reflexivity|].
  eexists. split; [vm_compute; reflexivity|].
  vm_compute. reflexivity.
Qed.

(** C2, amended.  For every vector whose elements are all inside the
    codec's domain, [decompress(compress(x), len(x))] succeeds and returns
    a vector of the same length whose every element differs from the
    original by at most [0.5 / (PHI * 1000) + 0.00001]: the half
    quantization step and the rounding of the float32 operations. *)
Theorem roundtrip_error_within_half_step_and_rounding (data : list Q) :
  Forall representable data ->
  exists recon,
    decompress (compress data) (List.length data) = Ok recon /\
    Forall2 (fun x y =>
               Qabs (x - y)
               <= (1 # 2) / (GoldenRatioCompressor.PHI * 1000) + (1 # 100000))%Q
            data recon.
Proof.
  intros Hdom. rewrite rounded_decompress_compress.
  eexists. split; [reflexivity|].
  induction Hdom as [|x xs Hx _ IH]; cbn [map]; constructor.
  - destruct (rounded_element x Hx) as [Hr Hb].
    now rewrite (rounded_astype_int16_id _ Hr).
  - exact IH.
Qed.

Lemma roundtrip_rounding_witness :
  let data := [12389 # 16384; 1 # 10; -2 # 10; 20 # 1; -20 # 1]%Q in
  Forall representable data /\
  exists recon,
    decompress (compress data) (List.length data) = Ok recon /\
    Forall2 (fun x y =>
               Qabs (x - y)
               <= (1 # 2) / (GoldenRatioCompressor.PHI * 1000) + (1 # 100000))%Q
            data recon.
Proof.
  intros data.
  assert (H : Forall representable data)
    by (repeat constructor; discriminate).
  split; [exact H|].
  apply (roundtrip_error_within_half_step_and_rounding data H).
Defined.

(** C1, as stated, fails: 21 scales to 33979, beyond the int16 range,
    and [compress] returns a blob whose cell holds -31557. *)
Lemma compress_21_is_stored_wrapped :
  (32767 < Qabs ((21 # 1) * GoldenRatioCompressor.PHI * 1000))%Q /\
  rounded_scaled (21 # 1) = 33979 /\
  compress [21 # 1]%Q = [xbb; x84] /\
  GoldenRatioCompressor.frombuffer (compress [21 # 1]%Q) 1 = Ok [-31557].
Proof. repeat split; vm_compute; reflexivity. Qed.

(** C1, amended.  [compress] checks no range and never fails: for every
    vector it returns a blob of two bytes per element, each pair an int16
    cell.  An element whose rounded scaled value is inside the int16 range
    is stored as that value; one whose rounded scaled value is outside the
    range is stored all the same, as a different value. *)
Theorem compress_never_fails_on_overflow (data : list Q) :
  List.length (compress data) = (2 * List.length data)%nat /\
  exists cells,
    GoldenRatioCompressor.frombuffer (compress data) (List.length data)
      = Ok cells /\
    Forall2 (fun x c =>
               int16 c /\
               (int16 (rounded_scaled x) -> c = rounded_scaled x) /\
               (~ int16 (rounded_scaled x) -> c <> rounded_scaled x))
            data cells.
Proof.
  split.
  - unfold compress. rewrite length_tobytes. unfold scaled.
    now rewrite length_map.
  - exists (scaled data). split; [apply rounded_frombuffer_compress|].
    unfold scaled. induction data as [|x xs IH]; cbn [map]; constructor.
    + split; [apply rounded_astype_int16_range|]. split.
      * apply rounded_astype_int16_id.
      * intros Hn E. apply Hn. rewrite <- E.
        apply rounded_astype_int16_range.
    + exact IH.
Qed.

End RoundedCodec.
